(** * Learning tracker of maruni (src/src/learning_tracker.py)

    A shallow embedding of the spaced-repetition tracker.  The persisted
    JSON document is modelled by the record [Data]; the dicts of the
    document are stdpp [gmap]s keyed by strings and the lists are Rocq
    lists.  Every public function of the module is [load_data], a mutation
    of the loaded copy, and [save_data]; since [json.load] gives back what
    [json.dump] wrote, the sequential model passes the document itself
    from call to call (the file-level behaviour of [save_data] is modelled
    separately in module [FileStore]).

    Modelling conventions:
    - Python floats are modelled by exact rationals [Q]
      ([ease_factor], weights, percentages); the [round(x, 1)] of the
      report functions is left as a parameter [round1];
    - [datetime.now()] is an explicit argument [now : Z], the local time in
      seconds; [isoformat]/[fromisoformat] round-trip, so a stored
      timestamp is that number; the local calendar day is [now / 86400] and
      the local hour is [(now mod 86400) / 3600] ([strftime("%Y-%m-%d")] is
      injective on days, so comparing date strings is comparing days);
    - the dict keys added "for backwards compatibility" are always present
      in documents produced by [_empty_data] and by the functions below;
    - a raised Python exception is [None] where a function can raise. *)

From Stdlib Require Import ZArith QArith Qminmax Qround Lia Lqa Ascii.
From stdpp Require Import base gmap strings list fin_maps sorting.

Open Scope Z_scope.

(* ------------------------------------------------------------------ *)
(** ** Python helpers *)

(** [max(a, b)] keeps [a] unless [b > a]. *)
Definition py_max (a b : Q) : Q := if Qle_bool b a then a else b.

(** [min(a, b)] keeps [a] unless [b < a]. *)
Definition py_min (a b : Q) : Q := if Qle_bool a b then a else b.

(** [int(x)]: truncation towards zero. *)
Definition py_int (x : Q) : Z := Z.quot (Qnum x) (Zpos (Qden x)).

(** [l[-n:]]: the last [n] elements (the whole list when it is shorter). *)
Definition py_tail {A} (n : nat) (l : list A) : list A :=
  skipn (length l - n) l.

(** [s[:n]] on a string. *)
Definition py_prefix (n : nat) (s : string) : string := String.substring 0 n s.

Definition seconds_per_day : Z := 86400.
Definition day_of (t : Z) : Z := t / seconds_per_day.
Definition hour_of (t : Z) : Z := (t mod seconds_per_day) / 3600.

(* ------------------------------------------------------------------ *)
(** ** Data model ([_empty_data]) *)

Record Drill := mkDrill {
  correct : Z;
  incorrect : Z;
  last_seen : option Z;
  ease_factor : Q;
  interval : Z;
  category : string;
  file : string
}.

Record CategoryStats := mkCategoryStats {
  cat_correct : Z;
  cat_incorrect : Z
}.

Record LogEntry := mkLogEntry {
  log_date : Z;
  log_correct : bool;
  log_file : string;
  log_category : string
}.

Record Session := mkSession {
  ses_date : Z;
  ses_file : string;
  ses_score : Z;
  ses_total : Z
}.

Record Achievement := mkAchievement {
  unlocked_at : Z;
  seen : bool
}.

Record Stats := mkStats {
  total_correct : Z;
  total_incorrect : Z;
  current_streak : Z;
  best_streak : Z;
  session_correct : Z;
  session_incorrect : Z;
  days_streak : Z;
  last_practice_date : option Z
}.

Record Data := mkData {
  drills : gmap string Drill;
  sessions : list Session;
  categories : gmap string CategoryStats;
  answers_log : list LogEntry;
  achievements : gmap string Achievement;
  stats : Stats
}.

Definition empty_stats : Stats := mkStats 0 0 0 0 0 0 0 None.

Definition _empty_data : Data := mkData ∅ [] ∅ [] ∅ empty_stats.

(* ------------------------------------------------------------------ *)
(** ** Drills: [get_drill_id], [record_answer], [record_session] *)

Definition get_drill_id (file question : string) : string :=
  String.append file (String.append "::" (py_prefix 50 question)).

(** The record created for a drill seen for the first time. *)
Definition new_drill (category file : string) : Drill :=
  mkDrill 0 0 None (5#2) 1 category file.

(** The SM-2 update of [record_answer], lines 79-91. *)
Definition answer_drill (now : Z) (is_correct : bool) (d : Drill) : Drill :=
  if is_correct then
    let ef := py_max (13#10) (ease_factor d + (1#10))%Q in
    mkDrill (correct d + 1) (incorrect d) (Some now) ef
            (py_int (inject_Z (interval d) * ef)%Q) (category d) (file d)
  else
    mkDrill (correct d) (incorrect d + 1) (Some now)
            (py_max (13#10) (ease_factor d - (2#10))%Q) 1 (category d) (file d).

Definition answer_category (is_correct : bool) (c : CategoryStats) : CategoryStats :=
  if is_correct then mkCategoryStats (cat_correct c + 1) (cat_incorrect c)
  else mkCategoryStats (cat_correct c) (cat_incorrect c + 1).

Definition record_answer (now : Z) (file question category : string)
    (is_correct : bool) (data : Data) : Data :=
  let drill_id := get_drill_id file question in
  let d := match drills data !! drill_id with
           | Some d => d
           | None => new_drill category file
           end in
  let c := match categories data !! category with
           | Some c => c
           | None => mkCategoryStats 0 0
           end in
  let log := answers_log data ++ [mkLogEntry now is_correct file category] in
  mkData (<[drill_id := answer_drill now is_correct d]> (drills data))
         (sessions data)
         (<[category := answer_category is_correct c]> (categories data))
         (py_tail 5000 log)
         (achievements data)
         (stats data).

Definition record_session (now : Z) (file : string) (score total : Z)
    (data : Data) : Data :=
  mkData (drills data)
         (py_tail 1000 (sessions data ++ [mkSession now file score total]))
         (categories data) (answers_log data) (achievements data) (stats data).

(* ------------------------------------------------------------------ *)
(** ** Scheduling: [get_drill_weight], [select_weighted_drill] *)

(** [get_drill_weight]; [None] is the [ZeroDivisionError] of
    [days_ago / drill["interval"]] on an interval of 0. *)
Definition get_drill_weight (now : Z) (data : Data) (file question : string)
    : option Q :=
  let drill_id := get_drill_id file question in
  match drills data !! drill_id with
  | None => Some 1%Q
  | Some d =>
      let total := correct d + incorrect d in
      if Z.eqb total 0 then Some 1%Q else
      let error_rate := (inject_Z (incorrect d) / inject_Z total)%Q in
      let time_factor :=
        match last_seen d with
        | None => Some 1%Q
        | Some last =>
            let days_ago := (now - last) / seconds_per_day in
            if Z.leb (interval d) days_ago then
              if Z.eqb (interval d) 0 then None
              else Some (1 + (inject_Z days_ago / inject_Z (interval d)) * (1#2))%Q
            else Some 1%Q
        end in
      match time_factor with
      | None => None
      | Some tf =>
          let weight := ((3#10) + error_rate * (7#10)) * tf in
          Some (py_max (1#10) (py_min 3 weight))
      end%Q
  end.

(** A candidate drill as handed over by the UI ([{"question": ...}]). *)
Record Candidate := mkCandidate {
  cand_category : string;
  cand_question : string;
  cand_answer : string
}.

(** [weights = [get_drill_weight(file, d["question"]) for d in drills]]. *)
Fixpoint drill_weights (now : Z) (data : Data) (file : string)
    (ds : list Candidate) : option (list Q) :=
  match ds with
  | [] => Some []
  | d :: ds' =>
      match get_drill_weight now data file (cand_question d),
            drill_weights now data file ds' with
      | Some w, Some ws => Some (w :: ws)
      | _, _ => None
      end
  end.

(** The cumulative walk of lines 179-185: [drills[-1]] when it ends. *)
Fixpoint cumulative_walk (r cumulative : Q) (ps : list (Q * Candidate))
    (fallback : Candidate) : Candidate :=
  match ps with
  | [] => fallback
  | (p, d) :: ps' =>
      let cumulative' := (cumulative + p)%Q in
      if Qle_bool r cumulative' then d
      else cumulative_walk r cumulative' ps' fallback
  end.

(** [select_weighted_drill] with the draw [r = random.random()].
    [Some None] is the [return None] of the empty list, [None] a raised
    exception. *)
Definition select_weighted_drill (now : Z) (data : Data)
    (ds : list Candidate) (file : string) (r : Q) : option (option Candidate) :=
  match ds with
  | [] => Some None
  | d0 :: _ =>
      match drill_weights now data file ds with
      | None => None
      | Some weights =>
          let total_weight := fold_left Qplus weights 0%Q in
          if Qeq_bool total_weight 0 then None else
          let probabilities := map (fun w => w / total_weight)%Q weights in
          Some (Some (cumulative_walk r 0 (combine probabilities ds)
                                      (List.last ds d0)))
      end
  end.

(* ------------------------------------------------------------------ *)
(** ** [get_drill_difficulty] *)

Definition get_drill_difficulty (data : Data) (file question : string)
    : string * Q :=
  let drill_id := get_drill_id file question in
  match drills data !! drill_id with
  | None => ("Nieuw", -1)%Q
  | Some d =>
      let total := correct d + incorrect d in
      if Z.eqb total 0 then ("Nieuw", -1)%Q else
      let pct := (inject_Z (correct d) / inject_Z total * 100)%Q in
      if Qle_bool 80 pct then ("Makkelijk", pct)
      else if Qle_bool 50 pct then ("Medium", pct)
      else ("Moeilijk", pct)
  end.

(* ------------------------------------------------------------------ *)
(** ** Achievements: [check_achievements] and the other stats functions *)

(** The counter updates of lines 415-425. *)
Definition count_answer (is_correct : bool) (s : Stats) : Stats :=
  if is_correct then
    let streak := current_streak s + 1 in
    mkStats (total_correct s + 1) (total_incorrect s) streak
            (if Z.ltb (best_streak s) streak then streak else best_streak s)
            (session_correct s + 1) (session_incorrect s)
            (days_streak s) (last_practice_date s)
  else
    mkStats (total_correct s) (total_incorrect s + 1) 0 (best_streak s)
            (session_correct s) (session_incorrect s + 1)
            (days_streak s) (last_practice_date s).

Definition option_Z_eqb (a b : option Z) : bool :=
  match a, b with
  | Some x, Some y => Z.eqb x y
  | None, None => true
  | _, _ => false
  end.

(** The day-streak update of lines 427-436. *)
Definition count_day (now : Z) (s : Stats) : Stats :=
  let today := day_of now in
  if option_Z_eqb (last_practice_date s) (Some today) then s else
  let yesterday := day_of (now - seconds_per_day) in
  let ds :=
    if option_Z_eqb (last_practice_date s) (Some yesterday) then days_streak s + 1
    else match last_practice_date s with
         | None => 1
         | Some _ => 1
         end in
  mkStats (total_correct s) (total_incorrect s) (current_streak s)
          (best_streak s) (session_correct s) (session_incorrect s)
          ds (Some today).

(** The inner [unlock(aid)]: the achievement table and the list of new ids. *)
Definition unlock (now : Z) (aid : string)
    (acc : gmap string Achievement * list string)
    : gmap string Achievement * list string :=
  let '(achs, new_achievements) := acc in
  match achs !! aid with
  | Some _ => acc
  | None => (<[aid := mkAchievement now false]> achs, new_achievements ++ [aid])
  end.

Definition unlock_if (b : bool) (now : Z) (aid : string)
    (acc : gmap string Achievement * list string)
    : gmap string Achievement * list string :=
  if b then unlock now aid acc else acc.

(** The predicates of lines 446-484, in the order of the source. *)
Definition achievement_checks (hour : Z) (s : Stats) : list (bool * string) :=
  [ (Z.leb 1 (total_correct s), "first_blood");
    (Z.leb 10 (current_streak s), "on_fire");
    (Z.leb 20 (current_streak s), "perfectionist");
    (Z.leb 25 (current_streak s), "unstoppable");
    (Z.leb 100 (session_correct s), "big_brain");
    (Z.leb 50 (session_incorrect s), "masochist");
    (Z.leb 100 (total_correct s), "centurion");
    (Z.leb 500 (total_correct s), "scholar");
    (Z.leb 1000 (total_correct s), "master");
    (Z.leb 0 hour && Z.ltb hour 5, "night_owl");
    (Z.leb 5 hour && Z.ltb hour 7, "early_bird");
    (Z.leb 7 (days_streak s), "streak_week");
    (Z.leb 5 (current_streak s) && Z.leb 5 (session_incorrect s), "comeback") ]%string.

Definition check_achievements (now : Z) (is_correct : bool) (data : Data)
    : Data * list string :=
  let s := count_day now (count_answer is_correct (stats data)) in
  let '(achs, new_achievements) :=
    fold_left (fun acc '(b, aid) => unlock_if b now aid acc)
              (achievement_checks (hour_of now) s)
              (achievements data, []) in
  (mkData (drills data) (sessions data) (categories data) (answers_log data)
          achs s,
   new_achievements).

Definition mark_achievement_seen (achievement_id : string) (data : Data) : Data :=
  match achievements data !! achievement_id with
  | Some a =>
      mkData (drills data) (sessions data) (categories data) (answers_log data)
             (<[achievement_id := mkAchievement (unlocked_at a) true]> (achievements data))
             (stats data)
  | None => data
  end.

Definition reset_session_stats (data : Data) : Data :=
  let s := stats data in
  mkData (drills data) (sessions data) (categories data) (answers_log data)
         (achievements data)
         (mkStats (total_correct s) (total_incorrect s) (current_streak s)
                  (best_streak s) 0 0 (days_streak s) (last_practice_date s)).

(* ------------------------------------------------------------------ *)
(** ** Sequences of calls on the persisted document *)

(** The mutating entry points of the module, each a load-modify-save. *)
Inductive Op :=
| RecordAnswer (now : Z) (file question category : string) (is_correct : bool)
| RecordSession (now : Z) (file : string) (score total : Z)
| CheckAchievements (now : Z) (is_correct : bool)
| MarkAchievementSeen (achievement_id : string)
| ResetSessionStats.

Definition exec_op (op : Op) (data : Data) : Data :=
  match op with
  | RecordAnswer now f q c b => record_answer now f q c b data
  | RecordSession now f score total => record_session now f score total data
  | CheckAchievements now b => fst (check_achievements now b data)
  | MarkAchievementSeen aid => mark_achievement_seen aid data
  | ResetSessionStats => reset_session_stats data
  end.

Definition run (ops : list Op) (data : Data) : Data :=
  fold_left (fun d op => exec_op op d) ops data.

(* ================================================================== *)
(** * Properties *)

(** ** Item records: the SM-2 bounds *)

Definition drill_ok (d : Drill) : Prop :=
  (13#10 <= ease_factor d)%Q /\ 1 <= interval d.

Definition drills_ok (data : Data) : Prop :=
  forall id d, drills data !! id = Some d -> drill_ok d.

Lemma py_max_ge_l (a b : Q) : (a <= py_max a b)%Q.
Proof.
  unfold py_max. destruct (Qle_bool b a) eqn:E.
  - apply Qle_refl.
  - apply Qlt_le_weak, Qnot_le_lt. intros Hle.
    apply Qle_bool_iff in Hle. congruence.
Qed.

Lemma py_int_ge_1 (x : Q) : (1 <= x)%Q -> 1 <= py_int x.
Proof.
  destruct x as [n d]. unfold Qle, py_int. simpl. intros H.
  rewrite Z.quot_div_nonneg by lia.
  apply Z.div_le_lower_bound; lia.
Qed.

Lemma interval_product_ge_1 (i : Z) (ef : Q) :
  1 <= i -> (13#10 <= ef)%Q -> (1 <= inject_Z i * ef)%Q.
Proof.
  destruct ef as [n d]. unfold Qle, Qmult, inject_Z. simpl. intros Hi Hef. nia.
Qed.

Lemma new_drill_ok (c f : string) : drill_ok (new_drill c f).
Proof. split; [unfold Qle; simpl; lia | simpl; lia]. Qed.

Lemma answer_drill_ok (now : Z) (b : bool) (d : Drill) :
  drill_ok d -> drill_ok (answer_drill now b d).
Proof.
  intros [Hef Hint]. unfold answer_drill. destruct b; split; simpl.
  - apply py_max_ge_l.
  - apply py_int_ge_1, interval_product_ge_1; [lia | apply py_max_ge_l].
  - apply py_max_ge_l.
  - lia.
Qed.

Lemma answer_drill_counts (now : Z) (b : bool) (d : Drill) :
  correct d <= correct (answer_drill now b d) /\
  incorrect d <= incorrect (answer_drill now b d).
Proof. unfold answer_drill. destruct b; simpl; lia. Qed.

(** Only [record_answer] touches the drills. *)
Lemma exec_op_drills (op : Op) (data : Data) :
  (exists now f q c b, op = RecordAnswer now f q c b /\
     exec_op op data = record_answer now f q c b data) \/
  drills (exec_op op data) = drills data.
Proof.
  destruct op; simpl.
  - left. do 5 eexists. split; reflexivity.
  - right. reflexivity.
  - right. unfold check_achievements.
    destruct (fold_left _ _ _). reflexivity.
  - right. unfold mark_achievement_seen.
    destruct (achievements data !! achievement_id); reflexivity.
  - right. reflexivity.
Qed.

Lemma exec_op_drills_ok (op : Op) (data : Data) :
  drills_ok data -> drills_ok (exec_op op data).
Proof.
  intros Hok. destruct (exec_op_drills op data)
    as [(now & f & q & c & b & -> & Heq) | Heq]; rewrite ?Heq.
  - intros id d. simpl. rewrite lookup_insert.
    case_decide as Hid.
    + intros [= <-]. apply answer_drill_ok.
      destruct (drills data !! get_drill_id f q) eqn:E.
      * apply (Hok _ _ E).
      * apply new_drill_ok.
    + apply Hok.
  - intros id d. rewrite Heq. apply Hok.
Qed.

Lemma exec_op_counts (op : Op) (data : Data) (id : string) (d : Drill) :
  drills data !! id = Some d ->
  exists d', drills (exec_op op data) !! id = Some d' /\
    correct d <= correct d' /\ incorrect d <= incorrect d'.
Proof.
  intros Hd. destruct (exec_op_drills op data)
    as [(now & f & q & c & b & -> & Heq) | Heq]; rewrite ?Heq.
  - simpl. rewrite lookup_insert. case_decide as Hid.
    + subst id. rewrite Hd. eexists. split; [reflexivity|].
      apply answer_drill_counts.
    + exists d. split; [exact Hd | lia].
  - exists d. split; [exact Hd | lia].
Qed.

Lemma run_drills_ok (ops : list Op) (data : Data) :
  drills_ok data -> drills_ok (run ops data).
Proof.
  revert data. induction ops as [|op ops IH]; intros data Hok; simpl.
  - exact Hok.
  - apply IH, exec_op_drills_ok, Hok.
Qed.

Lemma run_counts (ops : list Op) (data : Data) (id : string) (d : Drill) :
  drills data !! id = Some d ->
  exists d', drills (run ops data) !! id = Some d' /\
    correct d <= correct d' /\ incorrect d <= incorrect d'.
Proof.
  revert data d. induction ops as [|op ops IH]; intros data d Hd; simpl.
  - exists d. split; [exact Hd | lia].
  - destruct (exec_op_counts op data id d Hd) as (d1 & H1 & Hc1 & Hi1).
    destruct (IH _ _ H1) as (d2 & H2 & Hc2 & Hi2).
    exists d2. split; [exact H2 | lia].
Qed.

Lemma empty_drills_ok : drills_ok _empty_data.
Proof. intros id d. simpl. rewrite lookup_empty. discriminate. Qed.

Lemma py_max_Qmax (a b : Q) : (py_max a b == Qmax a b)%Q.
Proof.
  unfold py_max. destruct (Qle_bool b a) eqn:E.
  - apply Qle_bool_iff in E. symmetry. apply Q.max_l. exact E.
  - symmetry. apply Q.max_r. apply Qlt_le_weak, Qnot_le_lt.
    intros Hle. apply Qle_bool_iff in Hle. congruence.
Qed.


(** C1: starting from the empty document (every item record is created
    with the defaults [easeFactor = 2.5], [interval = 1]), after any
    sequence of calls every item record has [easeFactor >= 1.3] and
    [interval >= 1], and any later sequence of calls keeps the record,
    keeps these bounds and never decreases [correct] or [incorrect]. *)
Theorem record_answer_bounds_invariant (ops1 ops2 : list Op) (id : string)
    (d1 : Drill) :
  drills (run ops1 _empty_data) !! id = Some d1 ->
  drill_ok d1 /\
  exists d2, drills (run ops2 (run ops1 _empty_data)) !! id = Some d2 /\
    drill_ok d2 /\ correct d1 <= correct d2 /\ incorrect d1 <= incorrect d2.
Proof.
  intros H1.
  pose proof (run_drills_ok ops1 _ empty_drills_ok) as Hok1.
  split; [exact (Hok1 _ _ H1)|].
  destruct (run_counts ops2 _ id d1 H1) as (d2 & H2 & Hc & Hi).
  exists d2. split; [exact H2|]. split; [|lia].
  exact (run_drills_ok ops2 _ Hok1 _ _ H2).
Qed.

Lemma record_answer_bounds_invariant_witness :
  drills (run [RecordAnswer 0 "f" "q" "c" true] _empty_data)
    !! get_drill_id "f" "q" = Some (answer_drill 0 true (new_drill "c" "f")) /\
  (drill_ok (answer_drill 0 true (new_drill "c" "f")) /\
   exists d2, drills (run [RecordAnswer 90000 "f" "q" "c" false]
                       (run [RecordAnswer 0 "f" "q" "c" true] _empty_data))
                !! get_drill_id "f" "q" = Some d2 /\
     drill_ok d2 /\
     correct (answer_drill 0 true (new_drill "c" "f")) <= correct d2 /\
     incorrect (answer_drill 0 true (new_drill "c" "f")) <= incorrect d2).
Proof.
  split; [vm_compute; reflexivity|].
  apply (record_answer_bounds_invariant [RecordAnswer 0 "f" "q" "c" true]
           [RecordAnswer 90000 "f" "q" "c" false]).
  vm_compute. reflexivity.
Defined.



(** ** Drill weights *)

Lemma py_min_Qmin (a b : Q) : (py_min a b == Qmin a b)%Q.
Proof.
  unfold py_min. destruct (Qle_bool a b) eqn:E.
  - apply Qle_bool_iff in E. symmetry. apply Q.min_l. exact E.
  - symmetry. apply Q.min_r. apply Qlt_le_weak, Qnot_le_lt.
    intros Hle. apply Qle_bool_iff in Hle. congruence.
Qed.

(** The weight as the spec words it: [errorRate = incorrect / total];
    [timeFactor] is 1 when [daysSinceLastSeen < interval] and
    [1 + (daysSinceLastSeen / interval) * 0.5] otherwise; the weight
    [(0.3 + errorRate * 0.7) * timeFactor] clamped to [[0.1, 3.0]]. *)
Definition spec_weight (c i days_since interval : Z) : Q :=
  let error_rate := (inject_Z i / inject_Z (c + i))%Q in
  let time_factor :=
    if Z.ltb days_since interval then 1%Q
    else (1 + (inject_Z days_since / inject_Z interval) * (1#2))%Q in
  Qmax (1#10) (Qmin 3 (((3#10) + error_rate * (7#10)) * time_factor)).

(** C3: [get_drill_weight] is 1.0 for an item never answered (no record,
    or a record with no answers); for an answered item with [lastSeen]
    set and [interval >= 1] it is [spec_weight] of its counts, of the
    whole number of days [floor((now - lastSeen) / 1 day)] and of its
    interval. *)
Theorem get_drill_weight_formula (now : Z) (data : Data) (f q : string) :
  (match drills data !! get_drill_id f q with
   | None => True
   | Some d => correct d + incorrect d = 0
   end -> get_drill_weight now data f q = Some 1%Q) /\
  (forall d last,
     drills data !! get_drill_id f q = Some d ->
     correct d + incorrect d <> 0 ->
     last_seen d = Some last ->
     1 <= interval d ->
     exists w, get_drill_weight now data f q = Some w /\
       (w == spec_weight (correct d) (incorrect d)
                         ((now - last) / seconds_per_day) (interval d))%Q).
Proof.
  split.
  - unfold get_drill_weight.
    destruct (drills data !! get_drill_id f q) as [d|]; [|reflexivity].
    intros Ht. rewrite Ht. reflexivity.
  - intros d last Hd Ht Hl Hi. unfold get_drill_weight. rewrite Hd, Hl.
    apply Z.eqb_neq in Ht. rewrite Ht.
    assert (Hi0 : Z.eqb (interval d) 0 = false) by (apply Z.eqb_neq; lia).
    unfold spec_weight.
    destruct (Z.leb (interval d) ((now - last) / seconds_per_day)) eqn:Hle.
    + rewrite Hi0. eexists. split; [reflexivity|].
      assert (Hlt : Z.ltb ((now - last) / seconds_per_day) (interval d) = false).
      { apply Z.ltb_ge. apply Z.leb_le. exact Hle. }
      rewrite Hlt. rewrite py_max_Qmax. apply Q.max_compat; [reflexivity|].
      apply py_min_Qmin.
    + eexists. split; [reflexivity|].
      assert (Hlt : Z.ltb ((now - last) / seconds_per_day) (interval d) = true).
      { apply Z.ltb_lt. apply Z.leb_gt. exact Hle. }
      rewrite Hlt. rewrite py_max_Qmax. apply Q.max_compat; [reflexivity|].
      apply py_min_Qmin.
Qed.

(** A document with one item answered wrongly at time 0. *)
Definition one_miss : Data := record_answer 0 "f" "q" "c" false _empty_data.

Lemma get_drill_weight_formula_witness :
  get_drill_weight 0 _empty_data "f" "q" = Some 1%Q /\
  exists w, get_drill_weight (3 * seconds_per_day) one_miss "f" "q" = Some w /\
    (w == spec_weight 0 1 3 1)%Q.
Proof.
  split.
  - apply (get_drill_weight_formula 0 _empty_data "f" "q"). vm_compute. exact I.
  - apply (proj2 (get_drill_weight_formula (3 * seconds_per_day) one_miss "f" "q")
             (answer_drill 0 false (new_drill "c" "f")) 0);
      vm_compute; congruence.
Defined.

(** ** Weighted selection *)

Lemma get_drill_weight_clamped (now : Z) (data : Data) (f q : string) :
  drills_ok data ->
  exists w, get_drill_weight now data f q = Some w /\ (1#10 <= w)%Q.
Proof.
  intros Hok. unfold get_drill_weight.
  destruct (drills data !! get_drill_id f q) as [d|] eqn:Hd;
    [|exists 1%Q; split; [reflexivity | discriminate]].
  destruct (Z.eqb (correct d + incorrect d) 0);
    [exists 1%Q; split; [reflexivity | discriminate]|].
  destruct (Hok _ _ Hd) as [_ Hi].
  assert (Hi0 : Z.eqb (interval d) 0 = false) by (apply Z.eqb_neq; lia).
  destruct (last_seen d) as [last|].
  - destruct (Z.leb (interval d) _); [rewrite Hi0|];
      eexists; (split; [reflexivity | apply py_max_ge_l]).
  - eexists. split; [reflexivity | apply py_max_ge_l].
Qed.

Lemma drill_weights_clamped (now : Z) (data : Data) (f : string)
    (ds : list Candidate) :
  drills_ok data ->
  exists ws, drill_weights now data f ds = Some ws /\
    length ws = length ds /\ Forall (fun w => 1#10 <= w)%Q ws.
Proof.
  intros Hok. induction ds as [|d ds IH]; simpl.
  - exists []. repeat split. constructor.
  - destruct (get_drill_weight_clamped now data f (cand_question d) Hok)
      as (w & -> & Hw).
    destruct IH as (ws & -> & Hlen & Hall).
    exists (w :: ws). repeat split; simpl; [lia|constructor; assumption].
Qed.

Lemma fold_Qplus_ge (ws : list Q) (acc : Q) :
  Forall (fun w => 1#10 <= w)%Q ws -> ws <> [] ->
  (acc + (1#10) <= fold_left Qplus ws acc)%Q.
Proof.
  revert acc. induction ws as [|w ws IH]; intros acc Hall Hne; [congruence|].
  inversion Hall as [|? ? Hw Hall']; subst. simpl.
  destruct ws as [|w' ws'].
  - simpl. lra.
  - specialize (IH (acc + w)%Q Hall' ltac:(discriminate)). lra.
Qed.

Lemma cumulative_walk_in (r cumulative : Q) (ps : list (Q * Candidate))
    (fallback : Candidate) :
  cumulative_walk r cumulative ps fallback = fallback \/
  exists p, In (p, cumulative_walk r cumulative ps fallback) ps.
Proof.
  revert cumulative. induction ps as [|[p d] ps IH]; intros cumulative; simpl.
  - left. reflexivity.
  - destruct (Qle_bool r (cumulative + p)).
    + right. exists p. left. reflexivity.
    + destruct (IH (cumulative + p)%Q) as [H | [p' H]].
      * left. exact H.
      * right. exists p'. right. exact H.
Qed.

Lemma last_in {A} (l : list A) (d : A) : l <> [] -> In (List.last l d) l.
Proof.
  induction l as [|x l IH]; intros Hne; [congruence|].
  destruct l as [|y l].
  - left. reflexivity.
  - right. apply IH. discriminate.
Qed.

(** C4: on a document whose item records satisfy the bounds of C1 (so
    no weight computation raises), [select_weighted_drill] returns the
    [None] sentinel on the empty list, an element of the list (the
    candidate reached by the cumulative walk, or the last candidate) for
    every draw [r] on a non-empty list, and the only candidate of a
    one-element list. *)
Theorem select_weighted_drill_total (now : Z) (data : Data)
    (ds : list Candidate) (f : string) (r : Q) :
  drills_ok data ->
  (ds = [] -> select_weighted_drill now data ds f r = Some None) /\
  (ds <> [] -> exists d, select_weighted_drill now data ds f r = Some (Some d) /\
                         In d ds) /\
  (forall d, ds = [d] -> select_weighted_drill now data ds f r = Some (Some d)).
Proof.
  intros Hok.
  assert (Hsel : ds <> [] ->
            exists d, select_weighted_drill now data ds f r = Some (Some d) /\
              In d ds).
  { intros Hne. destruct ds as [|d0 ds']; [congruence|].
    destruct (drill_weights_clamped now data f (d0 :: ds') Hok)
      as (ws & Hws & Hlen & Hall).
    unfold select_weighted_drill. rewrite Hws.
    assert (Hwne : ws <> []) by (intros ->; discriminate).
    pose proof (fold_Qplus_ge ws 0 Hall Hwne) as Htot.
    destruct (Qeq_bool (fold_left Qplus ws 0%Q) 0%Q) eqn:E.
    { apply Qeq_bool_iff in E. lra. }
    eexists. split; [reflexivity|].
    match goal with |- In (cumulative_walk ?r ?c ?ps ?fb) _ =>
      destruct (cumulative_walk_in r c ps fb) as [-> | [p Hin]] end.
    - apply last_in. discriminate.
    - eapply in_combine_r. exact Hin. }
  split; [intros ->; reflexivity|]. split.
  - intros Hne. destruct (Hsel Hne) as (d & H1 & H2). eauto.
  - intros d ->. destruct (Hsel ltac:(discriminate)) as (d' & H1 & H2).
    destruct H2 as [<- | []]. exact H1.
Qed.

Lemma select_weighted_drill_total_witness :
  drills_ok one_miss /\
  select_weighted_drill 0 one_miss [] "f" (1#2) = Some None /\
  (exists d, select_weighted_drill 0 one_miss
               [mkCandidate "c" "q" "a"; mkCandidate "c" "q2" "a2"] "f" (1#2)
             = Some (Some d) /\
             In d [mkCandidate "c" "q" "a"; mkCandidate "c" "q2" "a2"]) /\
  select_weighted_drill 0 one_miss [mkCandidate "c" "q" "a"] "f" (1#2)
    = Some (Some (mkCandidate "c" "q" "a")).
Proof.
  assert (Hok : drills_ok one_miss).
  { apply (exec_op_drills_ok (RecordAnswer 0 "f" "q" "c" false)),
          empty_drills_ok. }
  split; [exact Hok|].
  pose proof (select_weighted_drill_total 0 one_miss [] "f" (1#2) Hok) as H0.
  pose proof (select_weighted_drill_total 0 one_miss
                [mkCandidate "c" "q" "a"; mkCandidate "c" "q2" "a2"] "f" (1#2) Hok)
    as H2.
  pose proof (select_weighted_drill_total 0 one_miss
                [mkCandidate "c" "q" "a"] "f" (1#2) Hok) as H1.
  split; [apply H0; reflexivity|]. split.
  - apply H2. discriminate.
  - apply H1. reflexivity.
Defined.

(** ** Bounded logs *)

Definition logs_bounded (data : Data) : Prop :=
  (length (answers_log data) <= 5000)%nat /\ (length (sessions data) <= 1000)%nat.

Lemma py_tail_suffix {A} (n : nat) (l : list A) :
  exists evicted, l = evicted ++ py_tail n l /\
    length (py_tail n l) = Nat.min n (length l).
Proof.
  unfold py_tail. exists (firstn (length l - n) l). split.
  - symmetry. apply firstn_skipn.
  - rewrite length_skipn. lia.
Qed.

Lemma py_tail_length {A} (n : nat) (l : list A) : (length (py_tail n l) <= n)%nat.
Proof. unfold py_tail. rewrite length_skipn. lia. Qed.

(** Only [record_answer] and [record_session] touch the two lists. *)
Lemma exec_op_logs (op : Op) (data : Data) :
  (exists now f q c b, op = RecordAnswer now f q c b) \/
  (exists now f score total, op = RecordSession now f score total) \/
  (answers_log (exec_op op data) = answers_log data /\
   sessions (exec_op op data) = sessions data).
Proof.
  destruct op; simpl.
  - left. do 5 eexists. reflexivity.
  - right. left. do 4 eexists. reflexivity.
  - right. right. unfold check_achievements.
    destruct (fold_left _ _ _). split; reflexivity.
  - right. right. unfold mark_achievement_seen.
    destruct (achievements data !! achievement_id); split; reflexivity.
  - right. right. split; reflexivity.
Qed.

Lemma exec_op_logs_bounded (op : Op) (data : Data) :
  logs_bounded data -> logs_bounded (exec_op op data).
Proof.
  intros [Ha Hs].
  destruct (exec_op_logs op data)
    as [(now & f & q & c & b & ->) | [(now & f & score & total & ->) | [Ha' Hs']]].
  - split; simpl; [apply py_tail_length | exact Hs].
  - split; simpl; [exact Ha | apply py_tail_length].
  - split; [rewrite Ha' | rewrite Hs']; assumption.
Qed.

(** C5: from a document within the bounds, any sequence of calls keeps
    [answers_log] within 5000 entries and [sessions] within 1000; each
    [record_answer] (resp. [record_session]) appends its entry and then
    keeps the most recent [min(5000, n + 1)] (resp. [min(1000, n + 1)])
    entries of the appended list, so the evicted entries are the oldest. *)
Theorem log_bounds_fifo :
  (forall (ops : list Op) (data : Data),
     logs_bounded data -> logs_bounded (run ops data)) /\
  (forall now f q c b (data : Data),
     exists evicted,
       answers_log data ++ [mkLogEntry now b f c] =
         evicted ++ answers_log (record_answer now f q c b data) /\
       length (answers_log (record_answer now f q c b data)) =
         Nat.min 5000 (S (length (answers_log data)))) /\
  (forall now f score total (data : Data),
     exists evicted,
       sessions data ++ [mkSession now f score total] =
         evicted ++ sessions (record_session now f score total data) /\
       length (sessions (record_session now f score total data)) =
         Nat.min 1000 (S (length (sessions data)))).
Proof.
  split; [|split].
  - intros ops. induction ops as [|op ops IH]; intros data Hb; simpl.
    + exact Hb.
    + apply IH, exec_op_logs_bounded, Hb.
  - intros now f q c b data. simpl.
    destruct (py_tail_suffix 5000 (answers_log data ++ [mkLogEntry now b f c]))
      as (ev & Heq & Hlen).
    exists ev. split; [exact Heq|]. rewrite Hlen, length_app.
    change (length [mkLogEntry now b f c]) with 1%nat.
    rewrite Nat.add_1_r. reflexivity.
  - intros now f score total data. simpl.
    destruct (py_tail_suffix 1000 (sessions data ++ [mkSession now f score total]))
      as (ev & Heq & Hlen).
    exists ev. split; [exact Heq|]. rewrite Hlen, length_app.
    change (length [mkSession now f score total]) with 1%nat.
    rewrite Nat.add_1_r. reflexivity.
Qed.

Lemma log_bounds_fifo_witness :
  logs_bounded _empty_data /\
  logs_bounded (run [RecordAnswer 0 "f" "q" "c" true; RecordSession 5 "f" 1 1]
                    _empty_data).
Proof.
  split; [split; simpl; lia|].
  apply (proj1 log_bounds_fifo). split; simpl; lia.
Defined.

(** ** Achievements are monotone *)

Section UnlockFold.
Variable aid : string.
Variable a : Achievement.

Definition keeps_unlocked (acc : gmap string Achievement * list string) : Prop :=
  acc.1 !! aid = Some a /\ ~ In aid acc.2.

Lemma unlock_keeps (now : Z) (x : string) acc :
  keeps_unlocked acc -> keeps_unlocked (unlock now x acc).
Proof.
  destruct acc as [achs news]. intros [Hl Hn]. simpl in Hl, Hn. unfold unlock.
  destruct (achs !! x) eqn:Ex; [split; assumption|].
  assert (Hx : x <> aid) by (intros ->; congruence).
  split; simpl.
  - rewrite lookup_insert_ne by congruence. exact Hl.
  - rewrite in_app_iff. intros [H | [H | []]]; [exact (Hn H) | congruence].
Qed.

Lemma unlock_fold_keeps (now : Z) (checks : list (bool * string)) acc :
  keeps_unlocked acc ->
  keeps_unlocked (fold_left (fun acc '(b, x) => unlock_if b now x acc) checks acc).
Proof.
  revert acc. induction checks as [|[b x] checks IH]; intros acc Hk; simpl.
  - exact Hk.
  - apply IH. destruct b; [apply unlock_keeps|]; exact Hk.
Qed.
End UnlockFold.

Lemma check_achievements_keeps (now : Z) (b : bool) (data : Data)
    (aid : string) (a : Achievement) :
  achievements data !! aid = Some a ->
  achievements (fst (check_achievements now b data)) !! aid = Some a /\
  ~ In aid (snd (check_achievements now b data)).
Proof.
  intros Ha. unfold check_achievements.
  match goal with |- context [fold_left ?g ?cs ?acc] =>
    pose proof (unlock_fold_keeps aid a now cs acc) as Hk;
    destruct (fold_left g cs acc) as [achs news] end.
  apply Hk. split; [exact Ha | intros []].
Qed.

Lemma exec_op_achievement (op : Op) (data : Data) (aid : string) (a : Achievement) :
  achievements data !! aid = Some a ->
  exists a', achievements (exec_op op data) !! aid = Some a' /\
    unlocked_at a' = unlocked_at a.
Proof.
  intros Ha. destruct op; simpl.
  - exists a. split; [exact Ha | reflexivity].
  - exists a. split; [exact Ha | reflexivity].
  - exists a. split; [|reflexivity]. apply (check_achievements_keeps _ _ _ _ _ Ha).
  - unfold mark_achievement_seen.
    destruct (achievements data !! achievement_id) as [a0|] eqn:E.
    + simpl. rewrite lookup_insert. case_decide as Hid.
      * subst. rewrite Ha in E. injection E as <-.
        eexists. split; reflexivity.
      * exists a. split; [exact Ha | reflexivity].
    + exists a. split; [exact Ha | reflexivity].
  - exists a. split; [exact Ha | reflexivity].
Qed.

(** C6: an unlocked achievement stays unlocked through any sequence of
    calls ([check_achievements] included), with its [unlocked_at]
    unchanged, so that [seen] is the only field of the record that can
    change; and [check_achievements] never reports an identifier that
    was already unlocked as newly unlocked. *)
Theorem achievements_monotone :
  (forall (ops : list Op) (data : Data) (aid : string) (a : Achievement),
     achievements data !! aid = Some a ->
     exists a', achievements (run ops data) !! aid = Some a' /\
       unlocked_at a' = unlocked_at a) /\
  (forall (now : Z) (b : bool) (data : Data) (aid : string),
     is_Some (achievements data !! aid) ->
     ~ In aid (snd (check_achievements now b data))).
Proof.
  split.
  - intros ops. induction ops as [|op ops IH]; intros data aid a Ha; simpl.
    + exists a. split; [exact Ha | reflexivity].
    + destruct (exec_op_achievement op data aid a Ha) as (a1 & H1 & E1).
      destruct (IH _ _ _ H1) as (a2 & H2 & E2).
      exists a2. split; [exact H2 | congruence].
  - intros now b data aid [a Ha].
    apply (check_achievements_keeps now b data aid a Ha).
Qed.

(** The document after a first correct answer at 10:00 of day 1. *)
Definition first_correct : Data :=
  fst (check_achievements (seconds_per_day + 36000) true _empty_data).

Lemma achievements_monotone_witness :
  (exists a', achievements (run [CheckAchievements (2 * seconds_per_day) false;
                                 MarkAchievementSeen "first_blood"] first_correct)
                !! "first_blood" = Some a' /\
     unlocked_at a' = seconds_per_day + 36000) /\
  ~ In "first_blood"%string
      (snd (check_achievements (2 * seconds_per_day) true first_correct)).
Proof.
  split.
  - apply (proj1 achievements_monotone _ first_correct "first_blood"
             (mkAchievement (seconds_per_day + 36000) false)).
    vm_compute. reflexivity.
  - apply (proj2 achievements_monotone). vm_compute. eexists. reflexivity.
Defined.

(** ** Streaks *)

(** The answers handed to [check_achievements] along a sequence of calls. *)
Definition answers_of (ops : list Op) : list bool :=
  flat_map (fun op => match op with
                      | CheckAchievements _ b => [b]
                      | _ => []
                      end) ops.

(** Number of leading [true]s of a list. *)
Fixpoint leading_true (l : list bool) : nat :=
  match l with
  | true :: l' => S (leading_true l')
  | _ => O
  end.

(** The spec's streak: consecutive correct answers since the last
    incorrect one, i.e. the trailing run of [true]s. *)
Definition trailing_correct (answers : list bool) : nat :=
  leading_true (rev answers).

Lemma run_app (ops1 ops2 : list Op) (data : Data) :
  run (ops1 ++ ops2) data = run ops2 (run ops1 data).
Proof. unfold run. apply fold_left_app. Qed.

Lemma day_of_yesterday (now : Z) : day_of (now - seconds_per_day) = day_of now - 1.
Proof.
  unfold day_of, seconds_per_day.
  replace (now - 86400) with (now + (-1) * 86400) by lia.
  rewrite Z.div_add by lia. lia.
Qed.

Lemma trailing_snoc (bs : list bool) (b : bool) :
  trailing_correct (bs ++ [b]) = if b then S (trailing_correct bs) else O.
Proof. unfold trailing_correct. rewrite rev_app_distr. destruct b; reflexivity. Qed.

(** The spec's best streak: the high-water mark of the streak, i.e. the
    largest [trailing_correct] over all prefixes of the answers. *)
Definition high_water (answers : list bool) : nat :=
  fold_right Nat.max O
    (map (fun i => trailing_correct (firstn i answers)) (seq 0 (S (length answers)))).

Lemma fold_max_init (l : list nat) (a : nat) :
  fold_right Nat.max a l = Nat.max (fold_right Nat.max O l) a.
Proof. induction l as [|x l IH]; simpl; lia. Qed.

Lemma high_water_snoc (bs : list bool) (b : bool) :
  high_water (bs ++ [b]) = Nat.max (high_water bs) (trailing_correct (bs ++ [b])).
Proof.
  unfold high_water. rewrite length_app. simpl length.
  rewrite Nat.add_1_r, List.seq_S, map_app, fold_right_app.
  replace (map (fun i => trailing_correct (firstn i (bs ++ [b]))) (seq 0 (S (length bs))))
    with (map (fun i => trailing_correct (firstn i bs)) (seq 0 (S (length bs)))).
  2: { apply List.map_ext_in. intros i Hi. apply List.in_seq in Hi.
       rewrite List.firstn_app. replace (i - length bs)%nat with O by lia.
       simpl. rewrite app_nil_r. reflexivity. }
  rewrite fold_max_init. cbn [fold_right map].
  rewrite (List.firstn_all2 (bs ++ [b])) by (rewrite length_app; simpl; lia). lia.
Qed.

Lemma trailing_le_high_water (bs : list bool) :
  (trailing_correct bs <= high_water bs)%nat.
Proof.
  destruct bs as [|b bs] using rev_ind; [reflexivity|].
  rewrite high_water_snoc. lia.
Qed.

Lemma answers_of_snoc (ops : list Op) (op : Op) :
  answers_of (ops ++ [op]) =
  answers_of ops ++ match op with CheckAchievements _ b => [b] | _ => [] end.
Proof. unfold answers_of. rewrite flat_map_app. destruct op; simpl; reflexivity. Qed.


Lemma exec_op_streaks (op : Op) (data : Data) :
  match op with
  | CheckAchievements now b =>
      stats (exec_op op data) = count_day now (count_answer b (stats data))
  | _ => current_streak (stats (exec_op op data)) = current_streak (stats data) /\
         best_streak (stats (exec_op op data)) = best_streak (stats data)
  end.
Proof.
  destruct op; simpl; try (split; reflexivity).
  - unfold check_achievements. destruct (fold_left _ _ _). reflexivity.
  - unfold mark_achievement_seen.
    destruct (achievements data !! achievement_id); split; reflexivity.
Qed.

Lemma count_day_streaks (now : Z) (s : Stats) :
  current_streak (count_day now s) = current_streak s /\
  best_streak (count_day now s) = best_streak s.
Proof.
  unfold count_day. destruct (option_Z_eqb _ _); split; reflexivity.
Qed.

(** The calls other than [check_achievements] leave both streaks alone. *)
Ltac streaks_unchanged Hs IH :=
  let Ecur := fresh "Ecur" in
  let Ebest := fresh "Ebest" in
  destruct Hs as [Ecur Ebest]; rewrite Ecur, Ebest; exact IH.

Lemma run_streak (ops : list Op) :
  current_streak (stats (run ops _empty_data)) = Z.of_nat (trailing_correct (answers_of ops)) /\
  0 <= current_streak (stats (run ops _empty_data)) <= best_streak (stats (run ops _empty_data)).
Proof.
  induction ops as [|op ops IH] using rev_ind.
  - unfold run, _empty_data, empty_stats. simpl. split; [reflexivity | lia].
  - rewrite run_app. unfold trailing_correct, answers_of.
    rewrite flat_map_app, rev_app_distr.
    fold (answers_of ops). simpl run.
    pose proof (exec_op_streaks op (run ops _empty_data)) as Hs.
    destruct op; cbn [flat_map rev app];
      [streaks_unchanged Hs IH | streaks_unchanged Hs IH | |
       streaks_unchanged Hs IH | streaks_unchanged Hs IH].
    rewrite Hs. destruct (count_day_streaks now (count_answer is_correct
                            (stats (run ops _empty_data)))) as [-> ->].
    destruct IH as [IHc IHb]. unfold trailing_correct in IHc.
    destruct is_correct; simpl.
    + rewrite Nat2Z.inj_succ, <- IHc.
      destruct (Z.ltb_spec (best_streak (stats (run ops _empty_data)))
                           (current_streak (stats (run ops _empty_data)) + 1)); lia.
    + lia.
Qed.

Lemma run_streak_high_water (ops : list Op) :
  current_streak (stats (run ops _empty_data)) = Z.of_nat (trailing_correct (answers_of ops)) /\
  best_streak (stats (run ops _empty_data)) = Z.of_nat (high_water (answers_of ops)).
Proof.
  induction ops as [|op ops IH] using rev_ind; [split; reflexivity|].
  rewrite run_app, answers_of_snoc. simpl run.
  pose proof (exec_op_streaks op (run ops _empty_data)) as Hs.
  destruct op; cbn iota; rewrite ?app_nil_r;
    [streaks_unchanged Hs IH | streaks_unchanged Hs IH | |
     streaks_unchanged Hs IH | streaks_unchanged Hs IH].
  rewrite Hs. destruct (count_day_streaks now (count_answer is_correct
                          (stats (run ops _empty_data)))) as [-> ->].
  rewrite high_water_snoc, trailing_snoc. destruct IH as [IHc IHb].
  destruct is_correct; simpl.
  - rewrite Nat2Z.inj_max, Nat2Z.inj_succ, <- IHc, <- IHb. split; [reflexivity|].
    destruct (Z.ltb_spec (best_streak (stats (run ops _empty_data)))
                         (current_streak (stats (run ops _empty_data)) + 1)); lia.
  - rewrite Nat.max_0_r. split; [reflexivity | exact IHb].
Qed.

Lemma hour_of_nonneg (t : Z) : 0 <= hour_of t.
Proof.
  unfold hour_of, seconds_per_day. apply Z.div_pos; [|lia].
  apply Z.mod_pos_bound. lia.
Qed.


Lemma unlock_if_dom (b : bool) (now : Z) (x aid : string)
    (acc : gmap string Achievement * list string) :
  is_Some ((unlock_if b now x acc).1 !! aid) <->
  is_Some (acc.1 !! aid) \/ (b = true /\ x = aid).
Proof.
  destruct acc as [achs news]. destruct b; simpl; [|intuition congruence].
  unfold unlock. destruct (achs !! x) eqn:Ex; simpl.
  - split; [tauto|]. intros [H | [_ <-]]; [exact H | rewrite Ex; eauto].
  - rewrite lookup_insert. case_decide as Hx.
    + subst. split; [tauto|]. intros _. eauto.
    + split; [tauto|]. intros [H | [_ H]]; [exact H | congruence].
Qed.

Lemma unlock_fold_dom (now : Z) (checks : list (bool * string))
    (acc : gmap string Achievement * list string) (aid : string) :
  is_Some ((fold_left (fun acc '(b, x) => unlock_if b now x acc) checks acc).1 !! aid) <->
  is_Some (acc.1 !! aid) \/ In (true, aid) checks.
Proof.
  revert acc. induction checks as [|[b x] checks IH]; intros acc; simpl.
  - tauto.
  - rewrite IH, unlock_if_dom. split.
    + intros [[H | [-> ->]] | H]; tauto.
    + intros [H | [H | H]]; [tauto | injection H as -> ->; tauto | tauto].
Qed.

(** A check that holds at a [check_achievements] call unlocks its
    achievement. *)
Lemma check_unlocks (now : Z) (b : bool) (data : Data) (aid : string) :
  In (true, aid) (achievement_checks (hour_of now)
                    (count_day now (count_answer b (stats data)))) ->
  is_Some (achievements (fst (check_achievements now b data)) !! aid).
Proof.
  intros Hin. unfold check_achievements.
  match goal with |- context [fold_left ?g ?cs ?acc] =>
    pose proof (unlock_fold_dom now cs acc aid) as Hdom;
    destruct (fold_left g cs acc) as [achs news] end.
  simpl in *. apply Hdom. right. exact Hin.
Qed.


(** The document after [k] correct answers and no incorrect one, all
    on the days [D] to [D + 5]: the counters, a day streak of at most
    [L - D + 1] where [L] is the last day practised, and exactly
    [first_blood] (from the first answer on) and [on_fire] (from the
    tenth on) unlocked. *)
Definition after_correct_run (D k : Z) (data : Data) : Prop :=
  (exists ds lpd, stats data = mkStats k 0 k k k 0 ds lpd /\
     match lpd with
     | None => k = 0
     | Some L => 1 <= k /\ D <= L <= D + 5 /\ 1 <= ds <= L - D + 1
     end) /\
  forall aid, is_Some (achievements data !! aid) <->
    (1 <= k /\ aid = "first_blood"%string) \/ (10 <= k /\ aid = "on_fire"%string).

Lemma check_correct_step (D k t : Z) (data : Data) :
  0 <= k -> k + 1 < 20 -> D <= day_of t <= D + 5 -> 7 <= hour_of t ->
  after_correct_run D k data ->
  after_correct_run D (k + 1) (fst (check_achievements t true data)).
Proof.
  intros Hk Hk20 Hday Hhour [(ds & lpd & Hs & Hinv) Hach].
  assert (Hs' : exists ds', count_day t (count_answer true (stats data)) =
                  mkStats (k + 1) 0 (k + 1) (k + 1) (k + 1) 0 ds' (Some (day_of t)) /\
                  1 <= ds' <= day_of t - D + 1).
  { rewrite Hs. unfold count_day. rewrite day_of_yesterday.
    unfold count_answer.
    cbn [total_correct total_incorrect current_streak best_streak session_correct
         session_incorrect days_streak last_practice_date].
    replace (Z.ltb k (k + 1)) with true by (symmetry; apply Z.ltb_lt; lia).
    destruct lpd as [L|]; cbn [option_Z_eqb].
    - destruct Hinv as (_ & HL & Hds).
      destruct (Z.eqb_spec L (day_of t)) as [HLt | Hne].
      + exists ds. rewrite HLt. split; [reflexivity | lia].
      + destruct (Z.eqb_spec L (day_of t - 1)) as [HL1 | Hne1].
        * exists (ds + 1). split; [reflexivity | lia].
        * exists 1. split; [reflexivity | lia].
    - exists 1. split; [reflexivity | lia]. }
  destruct Hs' as (ds' & Hs' & Hds').
  unfold check_achievements. rewrite Hs'.
  match goal with |- context [fold_left ?g ?cs ?acc] =>
    pose proof (fun aid => unlock_fold_dom t cs acc aid) as Hdom;
    destruct (fold_left g cs acc) as [achs news] end.
  split.
  - exists ds', (Some (day_of t)). split; [reflexivity | lia].
  - simpl. intros aid. specialize (Hdom aid). simpl in Hdom. rewrite Hdom, Hach.
    split.
    + intros [[[H1 H2] | [H1 H2]] | H]; [left; split; [lia | exact H2]
                                       | right; split; [lia | exact H2]|].
      repeat destruct H as [H | H]; try contradiction;
        injection H as Hb Ha; subst aid;
        rewrite ?andb_true_iff, ?Z.leb_le, ?Z.ltb_lt in Hb; try lia; auto.
    + intros [[H1 H2] | [H1 H2]]; right; subst aid.
      * left. f_equal. apply Z.leb_le. lia.
      * right. left. f_equal. apply Z.leb_le. lia.
Qed.

Lemma correct_run_steps (D : Z) (ts : list Z) (k : Z) (data : Data) :
  0 <= k -> k + Z.of_nat (length ts) < 20 ->
  (forall t, In t ts -> D <= day_of t <= D + 5 /\ 7 <= hour_of t) ->
  after_correct_run D k data ->
  after_correct_run D (k + Z.of_nat (length ts))
    (run (map (fun t => CheckAchievements t true) ts) data).
Proof.
  revert k data. induction ts as [|t ts IH]; intros k data Hk Hlen Hts Hrun; simpl.
  - rewrite Z.add_0_r. exact Hrun.
  - simpl in Hlen.
    replace (k + Z.of_nat (S (length ts))) with
            (k + 1 + Z.of_nat (length ts)) by lia.
    destruct (Hts t (or_introl eq_refl)) as [Hday Hhour].
    apply IH; [lia | lia | intros t' Ht'; apply Hts; right; exact Ht'|].
    apply check_correct_step; auto. lia.
Qed.

Lemma empty_after_correct_run (D : Z) : after_correct_run D 0 _empty_data.
Proof.
  split; [exists 0, None; split; reflexivity|]. intros aid. simpl. rewrite lookup_empty.
  split; [intros [? [=]] | lia].
Qed.

(** C7 (as amended): along any sequence of calls from the empty
    document, [current_streak] is the number of correct answers handed
    to [check_achievements] since the last incorrect one, [best_streak]
    is its high-water mark (the largest value of that number over all
    prefixes of the answers), so [best_streak >= current_streak]; an
    answer at local hour 0 to 4 unlocks [night_owl] and one at local
    hour 5 or 6 unlocks [early_bird]; ten correct answers from the empty
    document, at local hour 7 or later and within six consecutive local
    calendar days, give [current_streak = best_streak = 10] and exactly
    [first_blood] and [on_fire] unlocked. *)
Theorem streak_semantics :
  (forall ops : list Op,
     current_streak (stats (run ops _empty_data)) =
       Z.of_nat (trailing_correct (answers_of ops)) /\
     best_streak (stats (run ops _empty_data)) =
       Z.of_nat (high_water (answers_of ops)) /\
     current_streak (stats (run ops _empty_data)) <=
       best_streak (stats (run ops _empty_data))) /\
  (forall (now : Z) (b : bool) (data : Data), hour_of now < 5 ->
     is_Some (achievements (fst (check_achievements now b data)) !! "night_owl"%string)) /\
  (forall (now : Z) (b : bool) (data : Data), 5 <= hour_of now < 7 ->
     is_Some (achievements (fst (check_achievements now b data)) !! "early_bird"%string)) /\
  (forall (D : Z) (ts : list Z), length ts = 10%nat ->
     (forall t, In t ts -> D <= day_of t <= D + 5 /\ 7 <= hour_of t) ->
     let st := run (map (fun t => CheckAchievements t true) ts) _empty_data in
     current_streak (stats st) = 10 /\ best_streak (stats st) = 10 /\
     forall aid, is_Some (achievements st !! aid) <->
       aid = "first_blood"%string \/ aid = "on_fire"%string).
Proof.
  split; [|split; [|split]].
  - intros ops. destruct (run_streak_high_water ops) as [H1 H2].
    split; [exact H1|]. split; [exact H2|].
    rewrite H1, H2. apply Nat2Z.inj_le, trailing_le_high_water.
  - intros now b data Hh. apply check_unlocks.
    pose proof (hour_of_nonneg now) as H0.
    unfold achievement_checks.
    replace (Z.leb 0 (hour_of now) && Z.ltb (hour_of now) 5) with true
      by (symmetry; apply andb_true_iff; split; [apply Z.leb_le | apply Z.ltb_lt]; lia).
    cbn [In]. do 9 right. left. reflexivity.
  - intros now b data Hh. apply check_unlocks.
    unfold achievement_checks.
    replace (Z.leb 5 (hour_of now) && Z.ltb (hour_of now) 7) with true
      by (symmetry; apply andb_true_iff; split; [apply Z.leb_le | apply Z.ltb_lt]; lia).
    cbn [In]. do 10 right. left. reflexivity.
  - intros D ts Hlen Hts st.
    pose proof (correct_run_steps D ts 0 _empty_data
                  ltac:(lia) ltac:(rewrite Hlen; simpl; lia) Hts
                  (empty_after_correct_run D)) as [(ds & lpd & Hs & _) Hach].
    rewrite Hlen in Hs, Hach. simpl in Hs, Hach. fold st in Hs, Hach.
    rewrite Hs. split; [reflexivity|]. split; [reflexivity|].
    intros aid. rewrite Hach. split.
    + intros [[_ H] | [_ H]]; [left | right]; exact H.
    + intros [H | H]; [left | right]; (split; [lia | exact H]).
Qed.

(** Ten answers at 10:00 on the days 0 to 5 of the clock. *)
Definition six_days_at_ten : list Z :=
  [36000; 122400; 208800; 295200; 381600; 468000; 468000; 468000; 468000; 468000].

Lemma streak_semantics_witness :
  is_Some (achievements (fst (check_achievements 3600 true _empty_data)) !! "night_owl"%string) /\
  is_Some (achievements (fst (check_achievements 19800 false _empty_data))
             !! "early_bird"%string) /\
  (let st := run (map (fun t => CheckAchievements t true) six_days_at_ten) _empty_data in
   current_streak (stats st) = 10 /\ best_streak (stats st) = 10 /\
   forall aid, is_Some (achievements st !! aid) <->
     aid = "first_blood"%string \/ aid = "on_fire"%string).
Proof.
  destruct streak_semantics as (_ & Hn & He & Hex).
  split; [apply Hn; vm_compute; reflexivity|].
  split; [apply He; split; vm_compute; [discriminate | reflexivity]|].
  apply (Hex 0 six_days_at_ten); [reflexivity|].
  intros t Ht. unfold six_days_at_ten in Ht.
  repeat destruct Ht as [<- | Ht]; try contradiction;
    (split; [split|]; vm_compute; discriminate).
Defined.

(** Restricting the example to six consecutive days is needed: one
    answer at 10:00 on each of seven consecutive days, then three more,
    also unlock [streak_week]. *)
Lemma streak_week_after_seven_days :
  is_Some (achievements
    (run (map (fun t => CheckAchievements t true)
              [36000; 122400; 208800; 295200; 381600; 468000; 554400;
               554400; 554400; 554400]) _empty_data) !! "streak_week"%string).
Proof. vm_compute. eexists. reflexivity. Qed.

(** C7 as stated fails: ten correct answers from the empty document at
    01:00 local time give [current_streak = best_streak = 10] but unlock
    [night_owl] besides [first_blood] and [on_fire]. *)
Lemma streak_example_night_counterexample :
  let st := run (map (fun t => CheckAchievements t true) (repeat 3600 10))
                _empty_data in
  current_streak (stats st) = 10 /\ best_streak (stats st) = 10 /\
  is_Some (achievements st !! "night_owl") /\
  ~ (forall aid, is_Some (achievements st !! aid) <->
       aid = "first_blood"%string \/ aid = "on_fire"%string).
Proof.
  intros st. split; [reflexivity|]. split; [reflexivity|].
  assert (Hn : is_Some (achievements st !! "night_owl")).
  { vm_compute. eexists. reflexivity. }
  split; [exact Hn|].
  intros H. apply H in Hn. destruct Hn as [Hn | Hn]; discriminate Hn.
Qed.

(** ** Difficulty labels *)

(** A document with one item ("f", "q") answered 8 times correctly and
    then 2 times incorrectly. *)
Definition eight_of_ten : Data :=
  run (map (fun b => RecordAnswer 0 "f" "q" "c" b)
           [true; true; true; true; true; true; true; true; false; false])
      _empty_data.

(** C8 (as amended): [get_drill_difficulty] returns [("Nieuw", -1)] for
    an unanswered item; otherwise, with [pct = correct / total * 100],
    ["Makkelijk"] when [pct >= 80], ["Medium"] when [50 <= pct < 80] and
    ["Moeilijk"] when [pct < 50]; an item answered correctly 8 times and
    incorrectly 2 times gets ["Makkelijk"] with [pct = 80]. *)
Theorem get_drill_difficulty_bands (data : Data) (f q : string) :
  ((drills data !! get_drill_id f q = None \/
    exists d, drills data !! get_drill_id f q = Some d /\
              correct d + incorrect d = 0) ->
   get_drill_difficulty data f q = ("Nieuw"%string, (-1)%Q)) /\
  (forall d, drills data !! get_drill_id f q = Some d ->
     correct d + incorrect d <> 0 ->
     let pct := (inject_Z (correct d) / inject_Z (correct d + incorrect d) * 100)%Q in
     ((80 <= pct)%Q -> get_drill_difficulty data f q = ("Makkelijk"%string, pct)) /\
     ((50 <= pct)%Q -> (pct < 80)%Q -> get_drill_difficulty data f q = ("Medium"%string, pct)) /\
     ((pct < 50)%Q -> get_drill_difficulty data f q = ("Moeilijk"%string, pct))) /\
  (forall d, drills data !! get_drill_id f q = Some d ->
     correct d = 8 -> incorrect d = 2 ->
     fst (get_drill_difficulty data f q) = "Makkelijk"%string /\
     (snd (get_drill_difficulty data f q) == 80)%Q).
Proof.
  unfold get_drill_difficulty. split; [|split].
  - intros [-> | (d & -> & Ht)]; [reflexivity|]. rewrite Ht. reflexivity.
  - intros d Hd Ht. rewrite Hd. apply Z.eqb_neq in Ht. rewrite Ht.
    set (pct := (inject_Z (correct d) / inject_Z (correct d + incorrect d) * 100)%Q).
    split; [|split].
    + intros H80. apply Qle_bool_iff in H80. rewrite H80. reflexivity.
    + intros H50 H80. apply Qle_bool_iff in H50.
      destruct (Qle_bool 80 pct) eqn:E.
      * apply Qle_bool_iff in E. exfalso. exact (Qlt_not_le _ _ H80 E).
      * rewrite H50. reflexivity.
    + intros H50. destruct (Qle_bool 80 pct) eqn:E.
      * apply Qle_bool_iff in E. exfalso.
        apply (Qlt_not_le _ _ H50). apply Qle_trans with 80%Q; [discriminate | exact E].
      * destruct (Qle_bool 50 pct) eqn:E'; [|reflexivity].
        apply Qle_bool_iff in E'. exfalso. exact (Qlt_not_le _ _ H50 E').
  - intros d Hd Hc Hi. rewrite Hd, Hc, Hi. split; reflexivity.
Qed.

Lemma get_drill_difficulty_bands_witness :
  get_drill_difficulty _empty_data "f" "q" = ("Nieuw"%string, (-1)%Q) /\
  get_drill_difficulty eight_of_ten "f" "q" =
    ("Makkelijk"%string, (inject_Z 8 / inject_Z 10 * 100)%Q) /\
  fst (get_drill_difficulty eight_of_ten "f" "q") = "Makkelijk"%string /\
  (snd (get_drill_difficulty eight_of_ten "f" "q") == 80)%Q.
Proof.
  pose proof (get_drill_difficulty_bands _empty_data "f" "q") as [H0 _].
  pose proof (get_drill_difficulty_bands eight_of_ten "f" "q") as [_ [H1 H2]].
  split; [apply H0; left; reflexivity|]. split.
  - apply (H1 (answer_drill 0 false (answer_drill 0 false (answer_drill 0 true
              (answer_drill 0 true (answer_drill 0 true (answer_drill 0 true
              (answer_drill 0 true (answer_drill 0 true (answer_drill 0 true
              (answer_drill 0 true (new_drill "c" "f"))))))))))));
      [vm_compute; reflexivity | discriminate |].
    vm_compute. discriminate.
  - apply (H2 (answer_drill 0 false (answer_drill 0 false (answer_drill 0 true
              (answer_drill 0 true (answer_drill 0 true (answer_drill 0 true
              (answer_drill 0 true (answer_drill 0 true (answer_drill 0 true
              (answer_drill 0 true (new_drill "c" "f"))))))))))));
      vm_compute; reflexivity.
Defined.

(** C8 as stated fails: the labels are the Dutch strings of the source,
    not ["easy"] and ["new"]. *)
Lemma difficulty_labels_counterexample :
  fst (get_drill_difficulty eight_of_ten "f" "q") <> "easy"%string /\
  fst (get_drill_difficulty _empty_data "f" "q") <> "new"%string.
Proof. vm_compute. split; discriminate. Qed.

(** ** Persisting the document: [save_data] and [load_data] on the file *)

(** Well-formed UTF-8 (Unicode, Table 3-7), the check of Python's strict
    ['utf-8'] decoder: [0x00-0x7F]; [0xC2-0xDF] then one continuation
    byte [0x80-0xBF]; [0xE0-0xEF] then two (the first in [0xA0-0xBF] after
    [0xE0], in [0x80-0x9F] after [0xED]); [0xF0-0xF4] then three (the first
    in [0x90-0xBF] after [0xF0], in [0x80-0x8F] after [0xF4]).  A byte is an
    [ascii] character, so a byte string is a [string]. *)
Definition byte_in (lo hi : N) (c : ascii) : bool :=
  (lo <=? N_of_ascii c)%N && (N_of_ascii c <=? hi)%N.

Definition lo3 (b : N) : N := if (b =? 224)%N then 160%N else 128%N.
Definition hi3 (b : N) : N := if (b =? 237)%N then 159%N else 191%N.
Definition lo4 (b : N) : N := if (b =? 240)%N then 144%N else 128%N.
Definition hi4 (b : N) : N := if (b =? 244)%N then 143%N else 191%N.

Fixpoint utf8_valid (s : string) : bool :=
  match s with
  | EmptyString => true
  | String c r =>
      let b := N_of_ascii c in
      if (b <? 128)%N then utf8_valid r
      else match r with
        | EmptyString => false
        | String c1 r1 =>
            if byte_in 194 223 c then byte_in 128 191 c1 && utf8_valid r1
            else match r1 with
              | EmptyString => false
              | String c2 r2 =>
                  if byte_in 224 239 c then
                    byte_in (lo3 b) (hi3 b) c1 && byte_in 128 191 c2 && utf8_valid r2
                  else match r2 with
                    | EmptyString => false
                    | String c3 r3 =>
                        byte_in 240 244 c && byte_in (lo4 b) (hi4 b) c1 &&
                        byte_in 128 191 c2 && byte_in 128 191 c3 && utf8_valid r3
                    end
              end
        end
  end.


Lemma hi3_le (b : N) : (hi3 b <= 191)%N.
Proof. unfold hi3. destruct (b =? 237)%N; lia. Qed.

Lemma hi4_le (b : N) : (hi4 b <= 191)%N.
Proof. unfold hi4. destruct (b =? 244)%N; lia. Qed.



Module FileStore.
Section Persist.
(** [save_data] opens the file in text mode with [encoding='utf-8'] and
    [json.dump] writes the JSON text ([ensure_ascii=False], so non-ASCII
    characters stay multi-byte); the buffered writer hands its UTF-8 bytes
    to the file in blocks, and a block boundary can fall inside a
    character.  [dump_chunks data] is that sequence of byte blocks. *)
Variable dump_chunks : Data -> list string.
(** [json.load] on a byte string that is well-formed UTF-8 (it parses the
    decoded text): [None] is a [JSONDecodeError]. *)
Variable json_load : string -> option Data.

(** The file [user_data.json]: absent, or its current bytes. *)
Definition FileState := option string.

Inductive FileAction :=
| OpenTruncate
| WriteChunk (chunk : string).

Definition apply_action (fs : FileState) (a : FileAction) : FileState :=
  match a with
  | OpenTruncate => Some ""%string
  | WriteChunk chunk =>
      Some (String.append (match fs with Some s => s | None => ""%string end) chunk)
  end.

(** [save_data]: [open(DATA_FILE, 'w')] truncates the file in place,
    then the blocks of [json.dump] are written. *)
Definition save_data_actions (data : Data) : list FileAction :=
  OpenTruncate :: map WriteChunk (dump_chunks data).

(** [load_data]: the empty document when the file is absent or its text
    raises [JSONDecodeError]; reading a file that is not well-formed UTF-8
    raises [UnicodeDecodeError], which is not caught ([None]). *)
Definition load_data (fs : FileState) : option Data :=
  match fs with
  | None => Some _empty_data
  | Some s =>
      if utf8_valid s then
        match json_load s with
        | Some data => Some data
        | None => Some _empty_data
        end
      else None
  end.


Lemma apply_writes (s : string) (chunks : list string) :
  fold_left apply_action (map WriteChunk chunks) (Some s) =
  Some (fold_left String.append chunks s).
Proof.
  revert s. induction chunks as [|c chunks IH]; intros s; simpl; [reflexivity|].
  apply IH.
Qed.

End Persist.
End FileStore.


(** A codec that reads back [first_correct] from ["{}"], and one whose
    text ["{é}"] is written in two blocks cut inside the two bytes
    [0xC3 0xA9] of ["é"]. *)
Definition toy_dump (_ : Data) : list string := ["{"; "}"]%string.
Definition toy_load (s : string) : option Data :=
  if String.eqb s "{}" then Some first_correct else None.




(** ** Drill identifiers *)

(** C10: the item key keeps only the first 50 characters of the
    question, so in every file there are two distinct questions that
    [record_answer], [get_drill_weight] and [get_drill_difficulty] treat
    as one item. *)
Theorem drill_id_prefix_collision (f : string) :
  exists q1 q2 : string, q1 <> q2 /\ get_drill_id f q1 = get_drill_id f q2 /\
    forall (now : Z) (c : string) (b : bool) (data : Data),
      record_answer now f q1 c b data = record_answer now f q2 c b data /\
      get_drill_weight now data f q1 = get_drill_weight now data f q2 /\
      get_drill_difficulty data f q1 = get_drill_difficulty data f q2.
Proof.
  exists "aaaaaaaaaaaaaaaaaaaaaaaaaaaaaaaaaaaaaaaaaaaaaaaaaa1"%string, "aaaaaaaaaaaaaaaaaaaaaaaaaaaaaaaaaaaaaaaaaaaaaaaaaa2"%string.
  assert (Hid : get_drill_id f "aaaaaaaaaaaaaaaaaaaaaaaaaaaaaaaaaaaaaaaaaaaaaaaaaa1" = get_drill_id f "aaaaaaaaaaaaaaaaaaaaaaaaaaaaaaaaaaaaaaaaaaaaaaaaaa2").
  { unfold get_drill_id. f_equal. }
  split; [discriminate|]. split; [exact Hid|].
  intros now c b data.
  unfold record_answer, get_drill_weight, get_drill_difficulty.
  rewrite Hid. repeat split.
Qed.

(* ================================================================== *)
(** * Further properties of the tracker *)

(** ** The logs are the most recent entries of everything recorded *)

(** The [answers_log] entries the calls append, in order. *)
Definition log_entries_of (ops : list Op) : list LogEntry :=
  flat_map (fun op => match op with
                      | RecordAnswer now f _ c b => [mkLogEntry now b f c]
                      | _ => []
                      end) ops.

(** The [sessions] entries the calls append, in order. *)
Definition session_entries_of (ops : list Op) : list Session :=
  flat_map (fun op => match op with
                      | RecordSession now f score total => [mkSession now f score total]
                      | _ => []
                      end) ops.

Lemma py_tail_short {A} (n : nat) (l : list A) :
  (length l <= n)%nat -> py_tail n l = l.
Proof.
  intros H. unfold py_tail. replace (length l - n)%nat with 0%nat by lia.
  reflexivity.
Qed.

(** Truncating before each append is truncating once at the end. *)
Lemma py_tail_snoc {A} (n : nat) (l : list A) (x : A) :
  py_tail n (py_tail n l ++ [x]) = py_tail n (l ++ [x]).
Proof.
  unfold py_tail. rewrite !length_app, length_skipn. simpl.
  rewrite !skipn_app, skipn_skipn, length_skipn.
  f_equal; f_equal; lia.
Qed.

Lemma exec_op_answers_log (op : Op) (data : Data) :
  answers_log (exec_op op data) =
    match op with
    | RecordAnswer now f _ c b =>
        py_tail 5000 (answers_log data ++ [mkLogEntry now b f c])
    | _ => answers_log data
    end.
Proof.
  destruct op; simpl; try reflexivity.
  - unfold check_achievements. destruct (fold_left _ _ _). reflexivity.
  - unfold mark_achievement_seen.
    destruct (achievements data !! achievement_id); reflexivity.
Qed.

Lemma exec_op_sessions (op : Op) (data : Data) :
  sessions (exec_op op data) =
    match op with
    | RecordSession now f score total =>
        py_tail 1000 (sessions data ++ [mkSession now f score total])
    | _ => sessions data
    end.
Proof.
  destruct op; simpl; try reflexivity.
  - unfold check_achievements. destruct (fold_left _ _ _). reflexivity.
  - unfold mark_achievement_seen.
    destruct (achievements data !! achievement_id); reflexivity.
Qed.

(** From a document within the bounds, after any sequence of calls
    [answers_log] is the last 5000 entries of the old log followed by one
    entry per [record_answer], and [sessions] the last 1000 of the old
    sessions followed by one per [record_session], in call order. *)
Theorem logs_keep_most_recent (ops : list Op) (data : Data) :
  logs_bounded data ->
  answers_log (run ops data) = py_tail 5000 (answers_log data ++ log_entries_of ops) /\
  sessions (run ops data) = py_tail 1000 (sessions data ++ session_entries_of ops).
Proof.
  intros [Ha Hs]. induction ops as [|op ops IH] using rev_ind.
  - simpl. rewrite !app_nil_r, !py_tail_short by assumption. split; reflexivity.
  - destruct IH as [IHa IHs]. rewrite run_app. simpl run.
    unfold log_entries_of, session_entries_of. rewrite !flat_map_app.
    fold (log_entries_of ops) (session_entries_of ops).
    rewrite exec_op_answers_log, exec_op_sessions, IHa, IHs.
    destruct op; simpl; rewrite ?app_nil_r; try (split; reflexivity);
      rewrite app_assoc, py_tail_snoc; split; reflexivity.
Qed.

Lemma logs_keep_most_recent_witness :
  logs_bounded _empty_data /\
  answers_log (run [RecordAnswer 0 "f" "q" "c" true; RecordSession 5 "f" 1 1]
                   _empty_data) =
    py_tail 5000 (answers_log _empty_data ++
                  log_entries_of [RecordAnswer 0 "f" "q" "c" true;
                                  RecordSession 5 "f" 1 1]) /\
  sessions (run [RecordAnswer 0 "f" "q" "c" true; RecordSession 5 "f" 1 1]
                _empty_data) =
    py_tail 1000 (sessions _empty_data ++
                  session_entries_of [RecordAnswer 0 "f" "q" "c" true;
                                      RecordSession 5 "f" 1 1]).
Proof.
  assert (Hb : logs_bounded _empty_data) by (split; simpl; lia).
  split; [exact Hb|]. apply logs_keep_most_recent. exact Hb.
Defined.

(** ** Aggregates are sums of the recorded answers *)

Definition count_true (bs : list bool) : Z := Z.of_nat (length (List.filter (fun b => b) bs)).
Definition count_false (bs : list bool) : Z := Z.of_nat (length (List.filter negb bs)).

Lemma count_true_snoc (bs : list bool) (b : bool) :
  count_true (bs ++ [b]) = count_true bs + (if b then 1 else 0).
Proof. unfold count_true. rewrite List.filter_app, length_app. destruct b; simpl; lia. Qed.

Lemma count_false_snoc (bs : list bool) (b : bool) :
  count_false (bs ++ [b]) = count_false bs + (if b then 0 else 1).
Proof. unfold count_false. rewrite List.filter_app, length_app. destruct b; simpl; lia. Qed.

(** The answers recorded for category [c], in call order. *)
Definition answers_in_category (ops : list Op) (c : string) : list bool :=
  flat_map (fun op => match op with
                      | RecordAnswer _ _ _ c' b => if String.eqb c' c then [b] else []
                      | _ => []
                      end) ops.

(** The aggregate the spec derives from a list of answers. *)
Definition category_of_answers (bs : list bool) : option CategoryStats :=
  match bs with
  | [] => None
  | _ :: _ => Some (mkCategoryStats (count_true bs) (count_false bs))
  end.

Lemma category_of_answers_snoc (bs : list bool) (b : bool) :
  category_of_answers (bs ++ [b]) =
  Some (answer_category b (match category_of_answers bs with
                           | Some s => s
                           | None => mkCategoryStats 0 0
                           end)).
Proof.
  destruct bs as [|b0 bs].
  - destruct b; reflexivity.
  - cbn [app category_of_answers].
    rewrite (app_comm_cons bs [b] b0), count_true_snoc, count_false_snoc.
    destruct b; simpl; do 2 f_equal; lia.
Qed.

Lemma exec_op_categories (op : Op) (data : Data) :
  categories (exec_op op data) =
    match op with
    | RecordAnswer _ _ _ c b =>
        <[c := answer_category b (match categories data !! c with
                                  | Some s => s
                                  | None => mkCategoryStats 0 0
                                  end)]> (categories data)
    | _ => categories data
    end.
Proof.
  destruct op; simpl; try reflexivity.
  - unfold check_achievements. destruct (fold_left _ _ _). reflexivity.
  - unfold mark_achievement_seen.
    destruct (achievements data !! achievement_id); reflexivity.
Qed.

(** From the empty document, the aggregate of a category is absent until
    an answer is recorded for it, and then holds exactly the number of
    correct and of incorrect answers recorded for it. *)
Theorem categories_are_sums (ops : list Op) (c : string) :
  categories (run ops _empty_data) !! c = category_of_answers (answers_in_category ops c).
Proof.
  induction ops as [|op ops IH] using rev_ind.
  - reflexivity.
  - rewrite run_app. simpl run. rewrite exec_op_categories.
    unfold answers_in_category. rewrite flat_map_app.
    fold (answers_in_category ops c).
    destruct op; simpl; rewrite ?app_nil_r; try exact IH.
    rewrite lookup_insert. destruct (String.eqb_spec category0 c) as [-> | Hne].
    + rewrite decide_True by reflexivity. rewrite IH, category_of_answers_snoc.
      reflexivity.
    + rewrite decide_False by congruence. rewrite app_nil_r. exact IH.
Qed.

(** The [(file, category, correct)] of each [record_answer] on the item
    with key [id], in call order. *)
Definition hits_of (ops : list Op) (id : string) : list (string * string * bool) :=
  flat_map (fun op => match op with
                      | RecordAnswer _ f q c b =>
                          if String.eqb (get_drill_id f q) id then [(f, c, b)] else []
                      | _ => []
                      end) ops.

Lemma exec_op_drills_eq (op : Op) (data : Data) :
  drills (exec_op op data) =
    match op with
    | RecordAnswer now f q c b =>
        <[get_drill_id f q := answer_drill now b
            (match drills data !! get_drill_id f q with
             | Some d => d
             | None => new_drill c f
             end)]> (drills data)
    | _ => drills data
    end.
Proof.
  destruct op; simpl; try reflexivity.
  - unfold check_achievements. destruct (fold_left _ _ _). reflexivity.
  - unfold mark_achievement_seen.
    destruct (achievements data !! achievement_id); reflexivity.
Qed.

(** From the empty document, an item record exists exactly when an
    answer was recorded under its key; its [category] and [file] are
    those of the first such answer and are never overwritten, and its
    counts are the numbers of correct and incorrect answers recorded
    under the key. *)
Theorem drill_record_from_answers (ops : list Op) (id : string) :
  match drills (run ops _empty_data) !! id, hits_of ops id with
  | None, [] => True
  | Some d, (f0, c0, _) :: _ =>
      file d = f0 /\ category d = c0 /\
      correct d = count_true (map snd (hits_of ops id)) /\
      incorrect d = count_false (map snd (hits_of ops id))
  | _, _ => False
  end.
Proof.
  induction ops as [|op ops IH] using rev_ind.
  - simpl. rewrite lookup_empty. exact I.
  - rewrite run_app. simpl run. rewrite exec_op_drills_eq.
    unfold hits_of. rewrite flat_map_app. fold (hits_of ops id).
    destruct op as [now f q c b| | | |]; simpl; rewrite ?app_nil_r; try exact IH.
    rewrite lookup_insert.
    destruct (String.eqb_spec (get_drill_id f q) id) as [<- | Hne].
    + rewrite decide_True by reflexivity.
      destruct (drills (run ops _empty_data) !! get_drill_id f q) as [d|];
        destruct (hits_of ops (get_drill_id f q)) as [|[[f0 c0] b0] hs]; try contradiction.
      * destruct IH as (Hf & Hc & Hcor & Hinc). simpl in *.
        replace (b0 :: map snd (hs ++ [(f, c, b)])) with ((b0 :: map snd hs) ++ [b])
          by (rewrite map_app; reflexivity).
        rewrite count_true_snoc, count_false_snoc.
        rewrite <- Hcor, <- Hinc.
        destruct b; simpl; repeat split; assumption || lia.
      * simpl. unfold count_true, count_false. destruct b; simpl; repeat split; lia.
    + rewrite decide_False by congruence. rewrite app_nil_r. exact IH.
Qed.

(** The answers handed to [check_achievements] since the last
    [reset_session_stats], in call order. *)
Definition answers_since_reset (ops : list Op) : list bool :=
  fold_left (fun acc op => match op with
                           | ResetSessionStats => []
                           | CheckAchievements _ b => acc ++ [b]
                           | _ => acc
                           end) ops [].

Lemma exec_op_stats (op : Op) (data : Data) :
  stats (exec_op op data) =
    match op with
    | CheckAchievements now b => count_day now (count_answer b (stats data))
    | ResetSessionStats =>
        let s := stats data in
        mkStats (total_correct s) (total_incorrect s) (current_streak s)
                (best_streak s) 0 0 (days_streak s) (last_practice_date s)
    | _ => stats data
    end.
Proof.
  destruct op; simpl; try reflexivity.
  - unfold check_achievements. destruct (fold_left _ _ _). reflexivity.
  - unfold mark_achievement_seen.
    destruct (achievements data !! achievement_id); reflexivity.
Qed.

Lemma count_day_counters (now : Z) (s : Stats) :
  total_correct (count_day now s) = total_correct s /\
  total_incorrect (count_day now s) = total_incorrect s /\
  session_correct (count_day now s) = session_correct s /\
  session_incorrect (count_day now s) = session_incorrect s.
Proof. unfold count_day. destruct (option_Z_eqb _ _); repeat split. Qed.

(** From the empty document, [total_correct] and [total_incorrect]
    count all the answers handed to [check_achievements], while
    [session_correct] and [session_incorrect] count those since the last
    [reset_session_stats]. *)
Theorem stats_counters (ops : list Op) :
  let s := stats (run ops _empty_data) in
  total_correct s = count_true (answers_of ops) /\
  total_incorrect s = count_false (answers_of ops) /\
  session_correct s = count_true (answers_since_reset ops) /\
  session_incorrect s = count_false (answers_since_reset ops).
Proof.
  induction ops as [|op ops IH] using rev_ind.
  - repeat split.
  - simpl. rewrite run_app. simpl run. rewrite exec_op_stats.
    unfold answers_since_reset. rewrite fold_left_app.
    fold (answers_since_reset ops).
    unfold answers_of. rewrite flat_map_app. fold (answers_of ops).
    simpl in IH. destruct IH as (H1 & H2 & H3 & H4).
    destruct op as [| | now b | |]; simpl; rewrite ?app_nil_r;
      try (repeat split; assumption).
    destruct (count_day_counters now (count_answer b (stats (run ops _empty_data))))
      as (E1 & E2 & E3 & E4).
    rewrite E1, E2, E3, E4, !count_true_snoc, !count_false_snoc.
    destruct b; simpl; repeat split; lia.
Qed.

(** ** Day streaks *)

(** A [check_achievements] at time [now] records today as the last
    practice day and sets the day streak to: unchanged when the last
    practice was today, one more when it was yesterday, 1 otherwise
    (first practice, a gap, or a clock set back).  From the empty
    document the day streak is 0 exactly until the first practice and at
    least 1 afterwards. *)
Theorem days_streak_update :
  (forall (now : Z) (b : bool) (data : Data),
     let s := stats data in
     let s' := stats (fst (check_achievements now b data)) in
     last_practice_date s' = Some (day_of now) /\
     days_streak s' =
       match last_practice_date s with
       | Some d => if Z.eqb d (day_of now) then days_streak s
                   else if Z.eqb d (day_of now - 1) then days_streak s + 1
                   else 1
       | None => 1
       end) /\
  (forall ops : list Op,
     let s := stats (run ops _empty_data) in
     match last_practice_date s with
     | None => days_streak s = 0
     | Some _ => 1 <= days_streak s
     end).
Proof.
  assert (Hstep : forall now b data,
     let s := stats data in
     let s' := stats (fst (check_achievements now b data)) in
     last_practice_date s' = Some (day_of now) /\
     days_streak s' =
       match last_practice_date s with
       | Some d => if Z.eqb d (day_of now) then days_streak s
                   else if Z.eqb d (day_of now - 1) then days_streak s + 1
                   else 1
       | None => 1
       end).
  { intros now b data s s'.
    assert (Hs' : s' = count_day now (count_answer b s)).
    { subst s'. unfold check_achievements. destruct (fold_left _ _ _). reflexivity. }
    rewrite Hs'. unfold count_day. rewrite day_of_yesterday.
    destruct b; simpl; destruct (last_practice_date s) as [d|] eqn:El; simpl;
      try (split; reflexivity);
      (destruct (Z.eqb d (day_of now)) eqn:E;
       [apply Z.eqb_eq in E; simpl; rewrite <- E; split; reflexivity
       |simpl; split; reflexivity]). }
  split; [exact Hstep|].
  induction ops as [|op ops IH] using rev_ind; [reflexivity|].
  simpl. rewrite run_app. simpl run. simpl in IH.
  destruct op as [| | now b | |];
    try (rewrite exec_op_stats; exact IH).
  destruct (Hstep now b (run ops _empty_data)) as [Hl Hd]. simpl in Hl, Hd.
  simpl. rewrite Hl, Hd.
  destruct (last_practice_date (stats (run ops _empty_data))) as [d|]; [|lia].
  destruct (Z.eqb d (day_of now)); [lia|].
  destruct (Z.eqb d (day_of now - 1)); lia.
Qed.

(* ------------------------------------------------------------------ *)
(** ** What [check_achievements] reports *)

Section NewAchievements.
Variable now : Z.
Variable orig : gmap string Achievement.

(** The table and list built so far by the [unlock] calls: the listed
    ids are distinct, were absent from the original table, and are the
    only entries added, each as a fresh unseen record. *)
Definition reports_new (acc : gmap string Achievement * list string) : Prop :=
  NoDup acc.2 /\
  forall aid, (In aid acc.2 -> orig !! aid = None) /\
    acc.1 !! aid = if in_dec String.string_dec aid acc.2 then Some (mkAchievement now false)
                   else orig !! aid.

Lemma unlock_reports_new (x : string) acc :
  reports_new acc -> reports_new (unlock now x acc).
Proof.
  destruct acc as [achs news]. intros [Hnd Hl]. simpl in Hnd, Hl. unfold unlock.
  destruct (achs !! x) eqn:Ex; [split; assumption|].
  assert (Hx : ~ In x news /\ orig !! x = None).
  { destruct (Hl x) as [_ Hlx]. rewrite Ex in Hlx.
    destruct (in_dec String.string_dec x news); [discriminate|]. split; congruence. }
  destruct Hx as [Hxn Hxo].
  split; simpl.
  - apply NoDup_app. split; [exact Hnd|]. split; [|apply NoDup_singleton].
    intros y Hy Hy'. apply list_elem_of_In in Hy, Hy'.
    destruct Hy' as [<- | []]. exact (Hxn Hy).
  - intros aid. destruct (Hl aid) as [Hin Hlk]. split.
    + rewrite in_app_iff. intros [H | [<- | []]]; [exact (Hin H) | exact Hxo].
    + rewrite lookup_insert. case_decide as Heq.
      * subst aid. destruct (in_dec String.string_dec x (news ++ [x])) as [_|Hn];
          [reflexivity|].
        exfalso. apply Hn. apply in_app_iff. right. left. reflexivity.
      * rewrite Hlk. destruct (in_dec String.string_dec aid news) as [Hi|Hi];
          destruct (in_dec String.string_dec aid (news ++ [x])) as [Hj|Hj]; try reflexivity.
        -- exfalso. apply Hj, in_app_iff. left. exact Hi.
        -- exfalso. apply in_app_iff in Hj. destruct Hj as [Hj | [Hj | []]];
             [exact (Hi Hj) | congruence].
Qed.

Lemma unlock_fold_reports_new (checks : list (bool * string)) acc :
  reports_new acc ->
  reports_new (fold_left (fun acc '(b, x) => unlock_if b now x acc) checks acc).
Proof.
  revert acc. induction checks as [|[b x] checks IH]; intros acc Hr; simpl.
  - exact Hr.
  - apply IH. destruct b; [apply unlock_reports_new|]; exact Hr.
Qed.
End NewAchievements.

(** [check_achievements] returns exactly the achievements it adds: the
    returned ids are distinct, none was unlocked before the call, each
    is stored as unlocked at the time of the call and not yet seen, and
    every other entry of the table is left as it was. *)
Theorem check_achievements_reports_new (now : Z) (b : bool) (data : Data) :
  let data' := fst (check_achievements now b data) in
  let news := snd (check_achievements now b data) in
  NoDup news /\
  forall aid,
    (In aid news -> achievements data !! aid = None) /\
    achievements data' !! aid =
      if in_dec String.string_dec aid news then Some (mkAchievement now false)
      else achievements data !! aid.
Proof.
  unfold check_achievements.
  match goal with |- context [fold_left ?g ?cs ?acc] =>
    pose proof (unlock_fold_reports_new now (achievements data) cs acc) as Hr;
    destruct (fold_left g cs acc) as [achs news] end.
  apply Hr. split; [constructor|]. intros aid. split; [intros []|reflexivity].
Qed.

(* ------------------------------------------------------------------ *)
(** ** [get_achievements] and the catalog [ACHIEVEMENTS] *)

(** The keys of [ACHIEVEMENTS] with their display names, in the order of
    the source; the [icon] and [desc] fields are not modelled. *)
Definition ACHIEVEMENTS : list (string * string) :=
  [ ("first_blood", "First Blood");
    ("on_fire", "On Fire");
    ("unstoppable", "Unstoppable");
    ("big_brain", "Big Brain");
    ("masochist", "Masochist");
    ("night_owl", "Nachtbraker");
    ("early_bird", "Vroege Vogel");
    ("centurion", "Centurion");
    ("scholar", "Scholar");
    ("master", "Master");
    ("streak_week", "Streaker");
    ("perfectionist", "Perfectionist");
    ("comeback", "Comeback Kid") ]%string.

Definition catalog_name (aid : string) : option string :=
  match List.find (fun p => String.eqb p.1 aid) ACHIEVEMENTS with
  | Some p => Some p.2
  | None => None
  end.

(** An entry of [get_achievements]: [{**ACHIEVEMENTS[aid], **info}]. *)
Record ShownAchievement := mkShownAchievement {
  shown_name : string;
  shown_unlocked_at : Z;
  shown_seen : bool
}.

(** [get_achievements]: the stored achievements whose id is in the
    catalog, merged with their catalog entry. *)
Definition get_achievements (data : Data) : gmap string ShownAchievement :=
  map_imap (fun aid info =>
              match catalog_name aid with
              | Some name => Some (mkShownAchievement name (unlocked_at info) (seen info))
              | None => None
              end) (achievements data).

Lemma achievement_checks_catalogued (hour : Z) (s : Stats) (aid : string) :
  In (true, aid) (achievement_checks hour s) -> is_Some (catalog_name aid).
Proof.
  unfold achievement_checks. simpl.
  intros H; repeat destruct H as [H | H]; try contradiction;
    injection H as _ <-; eexists; reflexivity.
Qed.

Lemma exec_op_catalogued (op : Op) (data : Data) :
  (forall aid, is_Some (achievements data !! aid) -> is_Some (catalog_name aid)) ->
  forall aid, is_Some (achievements (exec_op op data) !! aid) -> is_Some (catalog_name aid).
Proof.
  intros Hc aid. destruct op; simpl; try apply Hc.
  - unfold check_achievements.
    match goal with |- context [fold_left ?g ?cs ?acc] =>
      pose proof (unlock_fold_dom now cs acc aid) as Hd;
      destruct (fold_left g cs acc) as [achs news] end.
    simpl in *. intros H. apply Hd in H. destruct H as [H | H].
    + exact (Hc aid H).
    + exact (achievement_checks_catalogued _ _ _ H).
  - unfold mark_achievement_seen.
    destruct (achievements data !! achievement_id) as [a|] eqn:E; [|apply Hc].
    simpl. rewrite lookup_insert. case_decide as Hid.
    + subst. intros _. apply Hc. rewrite E. eauto.
    + apply Hc.
Qed.

(** Every achievement unlocked from the empty document is listed by
    [get_achievements] with its catalog name, its unlock time and its
    [seen] flag: the [aid in ACHIEVEMENTS] filter never hides one. *)
Theorem get_achievements_shows_all (ops : list Op) (aid : string) (a : Achievement) :
  achievements (run ops _empty_data) !! aid = Some a ->
  exists name, catalog_name aid = Some name /\
    get_achievements (run ops _empty_data) !! aid =
      Some (mkShownAchievement name (unlocked_at a) (seen a)).
Proof.
  assert (Hc : forall ops aid, is_Some (achievements (run ops _empty_data) !! aid) ->
                               is_Some (catalog_name aid)).
  { intros ops0. induction ops0 as [|op ops0 IH] using rev_ind.
    - intros x [y Hy]. simpl in Hy. rewrite lookup_empty in Hy. discriminate.
    - rewrite run_app. simpl run. apply exec_op_catalogued. exact IH. }
  intros Ha. destruct (Hc ops aid ltac:(rewrite Ha; eauto)) as [name Hn].
  exists name. split; [exact Hn|].
  unfold get_achievements. rewrite map_lookup_imap, Ha. simpl. rewrite Hn. reflexivity.
Qed.

Lemma get_achievements_shows_all_witness :
  exists a, achievements (run [CheckAchievements (seconds_per_day + 36000) true]
                              _empty_data) !! "first_blood"%string = Some a /\
  exists name, catalog_name "first_blood" = Some name /\
    get_achievements (run [CheckAchievements (seconds_per_day + 36000) true]
                          _empty_data) !! "first_blood"%string =
      Some (mkShownAchievement name (unlocked_at a) (seen a)).
Proof.
  eexists. split; [vm_compute; reflexivity|].
  apply get_achievements_shows_all. vm_compute. reflexivity.
Defined.

(* ------------------------------------------------------------------ *)
(** ** The [seen] flag *)

(** [mark_achievement_seen] sets [seen] on an unlocked achievement,
    keeping its unlock time, and unlocks nothing; and once an
    achievement record has been seen, no later call changes it. *)
Theorem seen_flag (aid : string) :
  (forall data,
     achievements (mark_achievement_seen aid data) !! aid =
       option_map (fun a => mkAchievement (unlocked_at a) true) (achievements data !! aid) /\
     forall x, is_Some (achievements (mark_achievement_seen aid data) !! x) <->
               is_Some (achievements data !! x)) /\
  (forall (ops : list Op) (data : Data) (a : Achievement),
     achievements data !! aid = Some a -> seen a = true ->
     achievements (run ops data) !! aid = Some a).
Proof.
  split.
  - intros data. unfold mark_achievement_seen.
    destruct (achievements data !! aid) as [a|] eqn:E; simpl.
    + rewrite lookup_insert, decide_True by reflexivity. split; [reflexivity|].
      intros x. rewrite lookup_insert. case_decide as Hx.
      * subst. rewrite E. split; intros _; eauto.
      * reflexivity.
    + rewrite E. split; [reflexivity | tauto].
  - intros ops. induction ops as [|op ops IH]; intros data a Ha Hs; simpl; [exact Ha|].
    apply IH; [|exact Hs].
    destruct op; simpl; try exact Ha.
    + apply (check_achievements_keeps _ _ _ _ _ Ha).
    + unfold mark_achievement_seen.
      destruct (achievements data !! achievement_id) as [a0|] eqn:E; [|exact Ha].
      simpl. rewrite lookup_insert. case_decide as Hid; [|exact Ha].
      subst. rewrite Ha in E. injection E as <-. destruct a as [t s]. simpl in Hs.
      subst s. reflexivity.
Qed.

Lemma seen_flag_witness :
  let data := mark_achievement_seen "first_blood" first_correct in
  achievements data !! "first_blood"%string =
    Some (mkAchievement (seconds_per_day + 36000) true) /\
  seen (mkAchievement (seconds_per_day + 36000) true) = true /\
  achievements (run [CheckAchievements (2 * seconds_per_day) false;
                     MarkAchievementSeen "first_blood"] data) !! "first_blood"%string =
    Some (mkAchievement (seconds_per_day + 36000) true).
Proof.
  intros data. split; [vm_compute; reflexivity|]. split; [reflexivity|].
  apply (proj2 (seen_flag "first_blood")); [vm_compute; reflexivity | reflexivity].
Defined.

(* ------------------------------------------------------------------ *)
(** ** [get_drill_weight] on the documents the program writes *)

Lemma py_min_le_l (a b : Q) : (py_min a b <= a)%Q.
Proof.
  unfold py_min. destruct (Qle_bool a b) eqn:E; [apply Qle_refl|].
  destruct (Qlt_le_dec b a) as [H|H]; [apply Qlt_le_weak; exact H|].
  apply Qle_bool_iff in H. congruence.
Qed.

Lemma py_max_le (a b c : Q) : (a <= c)%Q -> (b <= c)%Q -> (py_max a b <= c)%Q.
Proof. unfold py_max. destruct (Qle_bool b a); auto. Qed.

(** On every document reachable from the empty one, [get_drill_weight]
    returns a weight in [[0.1, 3.0]] and never raises; on any document,
    the [ZeroDivisionError] of [days_ago / drill["interval"]] is raised
    exactly when the item is answered, has been seen, is due
    ([days_ago >= 0]) and has interval 0, which the program itself never
    writes. *)
Theorem get_drill_weight_never_raises (now : Z) (f q : string) :
  (forall ops : list Op,
     exists w, get_drill_weight now (run ops _empty_data) f q = Some w /\
       (1#10 <= w <= 3)%Q) /\
  (forall data : Data,
     get_drill_weight now data f q = None <->
     exists (d : Drill) (last : Z),
       drills data !! get_drill_id f q = Some d /\
       correct d + incorrect d <> 0 /\ interval d = 0 /\
       last_seen d = Some last /\ 0 <= (now - last) / seconds_per_day).
Proof.
  split.
  - intros ops.
    assert (Hok : drills_ok (run ops _empty_data))
      by (apply run_drills_ok, empty_drills_ok).
    destruct (get_drill_weight_clamped now _ f q Hok) as (w & Hw & Hlo).
    exists w. split; [exact Hw|]. split; [exact Hlo|].
    revert Hw. unfold get_drill_weight.
    destruct (drills _ !! get_drill_id f q) as [d|];
      [|intros [= <-]; discriminate].
    destruct (Z.eqb (correct d + incorrect d) 0); [intros [= <-]; discriminate|].
    destruct (last_seen d) as [last|];
      [destruct (Z.leb (interval d) _); [destruct (Z.eqb (interval d) 0)|]|];
      try discriminate; intros [= <-];
      apply py_max_le; try apply py_min_le_l; discriminate.
  - intros data. unfold get_drill_weight. cbv zeta. split.
    + destruct (drills data !! get_drill_id f q) as [d|] eqn:Hd; [|intros H; discriminate H].
      destruct (Z.eqb_spec (correct d + incorrect d) 0) as [Ht0|Htot];
        [intros H; discriminate H|].
      destruct (last_seen d) as [last|] eqn:Hl; [|intros H; discriminate H].
      destruct (Z.leb_spec (interval d) ((now - last) / seconds_per_day)) as [Hdue|Hnd];
        [|intros H; discriminate H].
      destruct (Z.eqb_spec (interval d) 0) as [Hi|Hi0]; [|intros H; discriminate H].
      intros _. exists d, last. repeat split; auto; lia.
    + intros (d & last & Hd & Htot & Hi & Hl & H0). rewrite Hd.
      apply Z.eqb_neq in Htot. rewrite Htot, Hl, Hi.
      apply Z.leb_le in H0. rewrite H0. reflexivity.
Qed.

Lemma get_drill_weight_never_raises_witness :
  let data := mkData {[ get_drill_id "f" "q" := mkDrill 1 0 (Some 0) (5#2) 0 "c" "f" ]}
                     [] ∅ [] ∅ empty_stats in
  drills data !! get_drill_id "f" "q" = Some (mkDrill 1 0 (Some 0) (5#2) 0 "c" "f") /\
  get_drill_weight seconds_per_day data "f" "q" = None.
Proof.
  intros data. split; [vm_compute; reflexivity|].
  apply (proj2 (get_drill_weight_never_raises seconds_per_day "f" "q") data).
  exists (mkDrill 1 0 (Some 0) (5#2) 0 "c" "f"), 0.
  split; [vm_compute; reflexivity|]. split; [simpl; lia|].
  split; [reflexivity|]. split; [reflexivity|]. vm_compute. discriminate.
Defined.

(* ------------------------------------------------------------------ *)
(** ** [save_data] then [load_data] *)

(** Once a [save_data] has completed, [load_data] returns the saved
    document, whatever the file held before, provided the written bytes
    are well-formed UTF-8 (they encode the dumped text) and [json.load]
    reads back what [json.dump] wrote. *)
Theorem save_then_load (dump_chunks : Data -> list string)
    (json_load : string -> option Data) (fs : FileStore.FileState) (data : Data) :
  utf8_valid (fold_left String.append (dump_chunks data) ""%string) = true ->
  json_load (fold_left String.append (dump_chunks data) ""%string) = Some data ->
  FileStore.load_data json_load
    (fold_left FileStore.apply_action (FileStore.save_data_actions dump_chunks data) fs)
  = Some data.
Proof.
  intros Hutf Hrt. simpl. rewrite FileStore.apply_writes. simpl.
  rewrite Hutf, Hrt. reflexivity.
Qed.

Lemma save_then_load_witness :
  utf8_valid (fold_left String.append (toy_dump first_correct) ""%string) = true /\
  toy_load (fold_left String.append (toy_dump first_correct) ""%string) = Some first_correct /\
  FileStore.load_data toy_load
    (fold_left FileStore.apply_action (FileStore.save_data_actions toy_dump first_correct)
               None) = Some first_correct.
Proof.
  split; [reflexivity|]. split; [reflexivity|]. apply save_then_load; reflexivity.
Defined.

(* ------------------------------------------------------------------ *)
(** ** The report functions *)

Section Reports.
(** [round(x, 1)] on the float [x]: a parameter, so that what follows
    holds for every rounding. *)
Variable round1 : Q -> Q.

(** A row of [get_category_stats], [get_file_stats] or
    [get_drill_stats_for_file]. *)
Record CountRow := mkCountRow {
  row_correct : Z;
  row_incorrect : Z;
  row_total : Z;
  row_percentage : Q
}.

(** [get_category_stats]: the categories with at least one answer. *)
Definition get_category_stats (data : Data) : gmap string CountRow :=
  omap (fun values =>
          let total := cat_correct values + cat_incorrect values in
          if Z.ltb 0 total then
            Some (mkCountRow (cat_correct values) (cat_incorrect values) total
                             (round1 (inject_Z (cat_correct values) / inject_Z total * 100)))
          else None)
       (categories data).









Lemma categories_answered (ops : list Op) (c : string) (v : CategoryStats) :
  categories (run ops _empty_data) !! c = Some v ->
  0 <= cat_correct v /\ 0 <= cat_incorrect v /\ 1 <= cat_correct v + cat_incorrect v.
Proof.
  revert c v. induction ops as [|op ops IH] using rev_ind; intros c v Hv.
  - simpl in Hv. rewrite lookup_empty in Hv. discriminate.
  - rewrite run_app in Hv. simpl run in Hv. rewrite exec_op_categories in Hv.
    destruct op as [now f q c' b| | | |]; try exact (IH _ _ Hv).
    rewrite lookup_insert in Hv. case_decide as Hc; [|exact (IH _ _ Hv)].
    subst c'. injection Hv as <-.
    destruct (categories (run ops _empty_data) !! c) as [v0|] eqn:E.
    + destruct (IH _ _ E) as (H1 & H2 & H3). destruct b; simpl; lia.
    + destruct b; simpl; lia.
Qed.

(** On a document reachable from the empty one, [get_category_stats]
    lists every stored category (its [total > 0] filter drops none),
    with its stored counts and a total of at least 1. *)
Theorem get_category_stats_lists_all (ops : list Op) (c : string) :
  get_category_stats (run ops _empty_data) !! c =
    match categories (run ops _empty_data) !! c with
    | Some v =>
        let total := cat_correct v + cat_incorrect v in
        Some (mkCountRow (cat_correct v) (cat_incorrect v) total
                         (round1 (inject_Z (cat_correct v) / inject_Z total * 100)))
    | None => None
    end /\
  forall row, get_category_stats (run ops _empty_data) !! c = Some row ->
    1 <= row_total row /\ row_total row = row_correct row + row_incorrect row.
Proof.
  unfold get_category_stats. rewrite lookup_omap.
  destruct (categories (run ops _empty_data) !! c) as [v|] eqn:E; simpl.
  - destruct (categories_answered ops c v E) as (H1 & H2 & H3).
    assert (Hlt : Z.ltb 0 (cat_correct v + cat_incorrect v) = true)
      by (apply Z.ltb_lt; lia).
    rewrite Hlt. split; [reflexivity|]. intros row [= <-]. simpl. lia.
  - split; [reflexivity | discriminate].
Qed.

(* ------------------------------------------------------------------ *)
(** ** [get_drill_stats_for_file] and the item key *)

Definition starts_with_colon (s : string) : bool :=
  match s with
  | String c _ => Ascii.eqb c ":"%char
  | EmptyString => false
  end.

Definition drop_first (s : string) : string :=
  match s with
  | String _ s' => s'
  | EmptyString => EmptyString
  end.

(** [s.split("::", 1)]: [Some (before, after)] around the first ["::"],
    [None] when ["::" not in s]. *)
Fixpoint split_sep_once (s : string) : option (string * string) :=
  match s with
  | EmptyString => None
  | String c rest =>
      if Ascii.eqb c ":"%char && starts_with_colon rest then Some (EmptyString, drop_first rest)
      else match split_sep_once rest with
           | Some (before, after) => Some (String c before, after)
           | None => None
           end
  end.

(** [drill_id.split("::", 1)[1] if "::" in drill_id else drill_id]. *)
Definition question_of_drill_id (drill_id : string) : string :=
  match split_sep_once drill_id with
  | Some (_, after) => after
  | None => drill_id
  end.

Record DrillStatRow := mkDrillStatRow {
  drow_correct : Z;
  drow_incorrect : Z;
  drow_total : Z;
  drow_percentage : Q;
  drow_difficulty : string
}.

(** [get_drill_stats_for_file]: one row per item record of [f], keyed
    by the question recovered from its key; a later item with the same
    recovered question overwrites an earlier one. *)
Definition get_drill_stats_for_file (data : Data) (f : string) : gmap string DrillStatRow :=
  fold_left (fun acc '(drill_id, drill) =>
               if String.eqb (file drill) f then
                 let question := question_of_drill_id drill_id in
                 let total := correct drill + incorrect drill in
                 <[question := mkDrillStatRow (correct drill) (incorrect drill) total
                      (if Z.ltb 0 total
                       then round1 (inject_Z (correct drill) / inject_Z total * 100)
                       else 0)
                      (fst (get_drill_difficulty data f question))]> acc
               else acc)
            (map_to_list (drills data)) ∅.

Lemma starts_with_colon_app (f y : string) :
  starts_with_colon (String.append f (String.append "::" y)) =
  starts_with_colon (String.append f ":").
Proof. destruct f; reflexivity. Qed.

Lemma split_sep_once_drill_id (f x : string) :
  split_sep_once (String.append f ":") = None ->
  split_sep_once (String.append f (String.append "::" x)) = Some (f, x).
Proof.
  induction f as [|c f IH]; intros Hf; [reflexivity|].
  simpl in Hf |- *. rewrite starts_with_colon_app.
  destruct (Ascii.eqb c ":"%char && starts_with_colon (String.append f ":")); [discriminate|].
  destruct (split_sep_once (String.append f ":")) as [[? ?]|]; [discriminate|].
  rewrite (IH eq_refl). reflexivity.
Qed.

Lemma py_prefix_idem (n : nat) (s : string) :
  py_prefix n (py_prefix n s) = py_prefix n s.
Proof.
  unfold py_prefix. revert n. induction s as [|c s IH]; intros n; destruct n; simpl;
    try reflexivity.
  rewrite IH. reflexivity.
Qed.

Lemma file_answer_drill (now : Z) (b : bool) (d : Drill) :
  file (answer_drill now b d) = file d.
Proof. destruct b; reflexivity. Qed.

Lemma drill_keys_reachable (ops : list Op) (id : string) (d : Drill) :
  drills (run ops _empty_data) !! id = Some d ->
  exists q, id = get_drill_id (file d) q.
Proof.
  revert id d. induction ops as [|op ops IH] using rev_ind; intros id d Hd.
  - simpl in Hd. rewrite lookup_empty in Hd. discriminate.
  - rewrite run_app in Hd. simpl run in Hd. rewrite exec_op_drills_eq in Hd.
    destruct op as [now f q c b| | | |]; try exact (IH _ _ Hd).
    rewrite lookup_insert in Hd. case_decide as Hid; [|exact (IH _ _ Hd)].
    subst id. injection Hd as <-. rewrite file_answer_drill.
    destruct (drills (run ops _empty_data) !! get_drill_id f q) as [d0|] eqn:E.
    + exact (IH _ _ E).
    + exists q. reflexivity.
Qed.

Lemma drill_stats_fold (data : Data) (f question : string) (row : DrillStatRow)
    (items : list (string * Drill)) (acc : gmap string DrillStatRow) :
  fold_left (fun acc '(drill_id, drill) =>
               if String.eqb (file drill) f then
                 let question := question_of_drill_id drill_id in
                 let total := correct drill + incorrect drill in
                 <[question := mkDrillStatRow (correct drill) (incorrect drill) total
                      (if Z.ltb 0 total
                       then round1 (inject_Z (correct drill) / inject_Z total * 100)
                       else 0)
                      (fst (get_drill_difficulty data f question))]> acc
               else acc) items acc !! question = Some row ->
  acc !! question = Some row \/
  exists drill_id drill, In (drill_id, drill) items /\ file drill = f /\
    question_of_drill_id drill_id = question /\
    drow_correct row = correct drill /\ drow_incorrect row = incorrect drill /\
    drow_difficulty row = fst (get_drill_difficulty data f question).
Proof.
  revert acc. induction items as [|[k d] items IH]; intros acc H; simpl in H.
  - left. exact H.
  - destruct (IH _ H) as [Hacc | (k' & d' & Hin & Hrest)].
    + destruct (String.eqb_spec (file d) f) as [Hf|Hf]; [|left; exact Hacc].
      rewrite lookup_insert in Hacc. case_decide as Hq; [|left; exact Hacc].
      injection Hacc as <-. right. exists k, d. simpl.
      repeat split; try left; congruence.
    + right. exists k', d'. split; [right; exact Hin | exact Hrest].
Qed.

(** When the file name [f] contains no ["::"] and does not end in [":"],
    every row of [get_drill_stats_for_file(f)] on a document reachable
    from the empty one describes the item record stored under
    [get_drill_id(f, question)] for its own key [question]: the question
    recovered from the item key leads back to the same key, so the
    counts of the row and its [difficulty] label, which
    [get_drill_difficulty(f, question)] recomputes from that key, are
    those of one record of [f]. *)
Theorem drill_stats_rows_match_keys (ops : list Op) (f question : string)
    (row : DrillStatRow) :
  split_sep_once (String.append f ":") = None ->
  get_drill_stats_for_file (run ops _empty_data) f !! question = Some row ->
  exists d, drills (run ops _empty_data) !! get_drill_id f question = Some d /\
    file d = f /\ drow_correct row = correct d /\ drow_incorrect row = incorrect d /\
    drow_difficulty row = fst (get_drill_difficulty (run ops _empty_data) f question).
Proof.
  intros Hf Hrow. unfold get_drill_stats_for_file in Hrow.
  destruct (drill_stats_fold _ _ _ _ _ _ Hrow) as [He | (id & d & Hin & Hfile & Hq & Hc & Hi & Hdiff)].
  { rewrite lookup_empty in He. discriminate. }
  apply list_elem_of_In, elem_of_map_to_list in Hin.
  destruct (drill_keys_reachable ops id d Hin) as [q Hid].
  rewrite Hfile in Hid. subst id.
  unfold question_of_drill_id, get_drill_id in Hq.
  rewrite split_sep_once_drill_id in Hq by exact Hf. subst question.
  exists d. unfold get_drill_id at 1. rewrite py_prefix_idem.
  repeat split; assumption.
Qed.

End Reports.

Lemma drill_stats_rows_match_keys_witness :
  let data := run [RecordAnswer 0 "f" "q" "c" true] _empty_data in
  split_sep_once (String.append "f" ":") = None /\
  get_drill_stats_for_file (fun x => x) data "f" !! "q"%string =
    Some (mkDrillStatRow 1 0 1 (inject_Z 1 / inject_Z 1 * 100) "Makkelijk") /\
  exists d, drills data !! get_drill_id "f" "q" = Some d /\
    file d = "f"%string /\ 1 = correct d /\ 0 = incorrect d /\
    "Makkelijk"%string = fst (get_drill_difficulty data "f" "q").
Proof.
  intros data. split; [reflexivity|]. split; [vm_compute; reflexivity|].
  apply (drill_stats_rows_match_keys (fun x => x) _ "f" "q"
           (mkDrillStatRow 1 0 1 (inject_Z 1 / inject_Z 1 * 100) "Makkelijk"));
    [reflexivity | vm_compute; reflexivity].
Defined.

(* ------------------------------------------------------------------ *)
(** ** [get_weak_categories] *)

(** One step of a stable insertion sort on the percentage: [x] goes
    after every entry whose percentage is at most its own. *)
Fixpoint insert_by_pct (x : string * Q) (l : list (string * Q)) : list (string * Q) :=
  match l with
  | [] => [x]
  | y :: l' => if Qle_bool y.2 x.2 then y :: insert_by_pct x l' else x :: l
  end.

(** [weak.sort(key=lambda x: x[1])]: Python's sort is stable, and so is
    this insertion sort, so both give the same list. *)
Definition sort_by_pct (l : list (string * Q)) : list (string * Q) :=
  fold_left (fun acc x => insert_by_pct x acc) l [].

(** [l[:limit]], with Python's reading of a negative [limit]. *)
Definition py_take {A} (limit : Z) (l : list A) : list A :=
  if Z.leb 0 limit then firstn (Z.to_nat limit) l
  else firstn (length l - Z.to_nat (- limit)) l.

(** The body of [get_weak_categories] on [stats.items()]. *)
Definition weak_categories_of (limit : Z) (items : list (string * CountRow))
    : list (string * Q) :=
  let weak := map (fun '(cat, s) => (cat, row_percentage s))
                  (List.filter (fun '(_, s) => Z.leb 3 (row_total s)) items) in
  py_take limit (sort_by_pct weak).

(** [get_weak_categories]; the items of the [get_category_stats] dict
    are taken here in the order of [map_to_list], where Python takes
    them in insertion order: the theorem below holds for every order. *)
Definition get_weak_categories (round1 : Q -> Q) (limit : Z) (data : Data)
    : list (string * Q) :=
  weak_categories_of limit (map_to_list (get_category_stats round1 data)).

Definition pct_le (a b : string * Q) : Prop := (a.2 <= b.2)%Q.

Lemma insert_by_pct_perm (x : string * Q) (l : list (string * Q)) :
  insert_by_pct x l ≡ₚ x :: l.
Proof.
  induction l as [|y l IH]; simpl; [reflexivity|].
  destruct (Qle_bool y.2 x.2); [|reflexivity].
  rewrite IH. constructor.
Qed.

Lemma sort_by_pct_perm_acc (l acc : list (string * Q)) :
  fold_left (fun acc x => insert_by_pct x acc) l acc ≡ₚ l ++ acc.
Proof.
  revert acc. induction l as [|x l IH]; intros acc; simpl; [reflexivity|].
  rewrite IH, insert_by_pct_perm. symmetry. apply Permutation_middle.
Qed.

Lemma sort_by_pct_perm (l : list (string * Q)) : sort_by_pct l ≡ₚ l.
Proof. unfold sort_by_pct. rewrite sort_by_pct_perm_acc, app_nil_r. reflexivity. Qed.

Lemma insert_by_pct_sorted (x : string * Q) (l : list (string * Q)) :
  StronglySorted pct_le l -> StronglySorted pct_le (insert_by_pct x l).
Proof.
  induction l as [|y l IH]; intros Hs; simpl.
  - repeat constructor.
  - inversion Hs as [|? ? Hs' Hy]; subst.
    destruct (Qle_bool y.2 x.2) eqn:E.
    + apply Qle_bool_iff in E. constructor; [exact (IH Hs')|].
      eapply Permutation_Forall; [symmetry; apply insert_by_pct_perm|].
      constructor; [exact E | exact Hy].
    + assert (Hxy : (x.2 <= y.2)%Q).
      { destruct (Qlt_le_dec x.2 y.2) as [H|H]; [apply Qlt_le_weak; exact H|].
        apply Qle_bool_iff in H. congruence. }
      constructor; [exact Hs|]. constructor; [exact Hxy|].
      eapply Forall_impl; [exact Hy|]. intros z Hz. unfold pct_le in *.
      eapply Qle_trans; eassumption.
Qed.

Lemma sort_by_pct_sorted (l : list (string * Q)) : StronglySorted pct_le (sort_by_pct l).
Proof.
  unfold sort_by_pct. generalize (@SSorted_nil _ pct_le).
  generalize (@nil (string * Q)) as acc.
  induction l as [|x l IH]; intros acc Hacc; simpl; [exact Hacc|].
  apply IH, insert_by_pct_sorted, Hacc.
Qed.

Lemma StronglySorted_app_inv {A} (R : A -> A -> Prop) (l1 l2 : list A) :
  StronglySorted R (l1 ++ l2) ->
  StronglySorted R l1 /\ forall x y, In x l1 -> In y l2 -> R x y.
Proof.
  induction l1 as [|a l1 IH]; simpl; intros Hs.
  - split; [constructor | intros x y []].
  - inversion Hs as [|? ? Hs' Ha]; subst. destruct (IH Hs') as [H1 H2].
    split.
    + constructor; [exact H1|]. apply List.Forall_forall. intros y Hy.
      rewrite List.Forall_forall in Ha. apply Ha, in_app_iff. left. exact Hy.
    + intros x y [<- | Hx] Hy; [|exact (H2 x y Hx Hy)].
      rewrite List.Forall_forall in Ha. apply Ha, in_app_iff. right. exact Hy.
Qed.

Lemma py_take_firstn {A} (limit : Z) (l : list A) :
  exists k, py_take limit l = firstn k l /\ ((k <= Z.to_nat limit)%nat \/ limit < 0).
Proof.
  unfold py_take. destruct (Z.leb_spec 0 limit).
  - exists (Z.to_nat limit). split; [reflexivity | left; lia].
  - eexists. split; [reflexivity | right; lia].
Qed.

(** Whatever the order of the items of [get_category_stats], the result
    of [get_weak_categories(limit)] is sorted by percentage, holds only
    categories with at least 3 answers, with their own percentage, has at
    most [limit] entries when [limit >= 0], and is made of weakest ones:
    a category with at least 3 answers that is left out has a percentage
    at least that of every category listed. *)
Theorem weak_categories_selection (limit : Z) (items : list (string * CountRow)) :
  let result := weak_categories_of limit items in
  StronglySorted pct_le result /\
  (forall cat pct, In (cat, pct) result ->
     exists s, In (cat, s) items /\ 3 <= row_total s /\ pct = row_percentage s) /\
  (forall cat s, In (cat, s) items -> 3 <= row_total s ->
     ~ In (cat, row_percentage s) result ->
     forall y, In y result -> (y.2 <= row_percentage s)%Q) /\
  ((length result <= Z.to_nat limit)%nat \/ limit < 0).
Proof.
  intros result. unfold result, weak_categories_of.
  set (weak := map _ _).
  destruct (py_take_firstn limit (sort_by_pct weak)) as (k & -> & Hk).
  pose proof (sort_by_pct_sorted weak) as Hs.
  rewrite <- (firstn_skipn k (sort_by_pct weak)) in Hs.
  destruct (StronglySorted_app_inv _ _ _ Hs) as [Hs1 Hlt].
  assert (Hin_weak : forall x, In x (firstn k (sort_by_pct weak)) -> In x weak).
  { intros x Hx. apply (Permutation_in _ (sort_by_pct_perm weak)).
    rewrite <- (firstn_skipn k (sort_by_pct weak)). apply in_app_iff. left. exact Hx. }
  split; [exact Hs1|]. split; [|split].
  - intros cat pct Hin. apply Hin_weak in Hin. unfold weak in Hin.
    apply in_map_iff in Hin. destruct Hin as ([cat' s] & Heq & Hin).
    injection Heq as <- <-. apply List.filter_In in Hin. destruct Hin as [Hin H3].
    exists s. apply Z.leb_le in H3. auto.
  - intros cat s Hin H3 Hnot y Hy.
    assert (Hw : In (cat, row_percentage s) weak).
    { unfold weak. apply in_map_iff. exists (cat, s). split; [reflexivity|].
      apply List.filter_In. split; [exact Hin | apply Z.leb_le; exact H3]. }
    apply (Permutation_in _ (Permutation_sym (sort_by_pct_perm weak))) in Hw.
    rewrite <- (firstn_skipn k (sort_by_pct weak)) in Hw.
    apply in_app_iff in Hw. destruct Hw as [Hw | Hw]; [contradiction|].
    exact (Hlt y _ Hy Hw).
  - destruct Hk as [Hk | Hk]; [left | right; exact Hk].
    rewrite length_firstn. lia.
Qed.

(* ------------------------------------------------------------------ *)
(** ** [get_progress_data] *)

(** The loop of [get_progress_data] over [answers_log]: per day key,
    [(correct, total)] of the entries at or after [cutoff]. *)
Definition progress_daily (cutoff : Z) (log : list LogEntry) : gmap Z (Z * Z) :=
  fold_left (fun daily entry =>
               if Z.leb cutoff (log_date entry) then
                 let day_key := day_of (log_date entry) in
                 let '(c, t) := match daily !! day_key with
                                | Some v => v
                                | None => (0, 0)
                                end in
                 <[day_key := (if log_correct entry then c + 1 else c, t + 1)]> daily
               else daily) log ∅.

Record ProgressRow := mkProgressRow {
  pr_date : Z;
  pr_score : Z;
  pr_total : Z;
  pr_percentage : Q
}.

Definition day_le (a b : Z * (Z * Z)) : Prop := a.1 <= b.1.

#[local] Instance day_le_dec (a b : Z * (Z * Z)) : Decision (day_le a b).
Proof. unfold day_le. apply _. Defined.

(** [get_progress_data(days)]: [sorted(daily.items())] orders the day
    keys, as the zero-padded ["%Y-%m-%d"] strings sort by date. *)
Definition get_progress_data (round1 : Q -> Q) (now days : Z) (data : Data)
    : list ProgressRow :=
  let cutoff := now - days * seconds_per_day in
  map (fun '(day, (c, t)) =>
         mkProgressRow day c t
           (if Z.ltb 0 t then round1 (inject_Z c / inject_Z t * 100)%Q else 0%Q))
      (merge_sort day_le (map_to_list (progress_daily cutoff (answers_log data)))).

Definition Zsum (l : list Z) : Z := fold_right Z.add 0 l.

Lemma Zsum_perm (l1 l2 : list Z) : l1 ≡ₚ l2 -> Zsum l1 = Zsum l2.
Proof.
  induction 1; simpl; [reflexivity | rewrite IHPermutation; reflexivity | lia | congruence].
Qed.

Lemma Zsum_map_insert (g : Z * Z -> Z) (m : gmap Z (Z * Z)) (k : Z) (v : Z * Z) :
  Zsum (map (fun kv => g kv.2) (map_to_list (<[k := v]> m))) =
  Zsum (map (fun kv => g kv.2) (map_to_list m))
  - match m !! k with Some v0 => g v0 | None => 0 end + g v.
Proof.
  destruct (m !! k) as [v0|] eqn:E.
  - rewrite <- insert_delete_eq.
    rewrite (Zsum_perm _ _ (Permutation_map _ (map_to_list_insert _ _ _ (lookup_delete_eq m k)))).
    rewrite <- (Zsum_perm _ _ (Permutation_map _ (map_to_list_delete m k v0 E))).
    simpl. lia.
  - rewrite (Zsum_perm _ _ (Permutation_map _ (map_to_list_insert _ _ _ E))). simpl. lia.
Qed.

Definition in_window (cutoff : Z) (e : LogEntry) : bool := Z.leb cutoff (log_date e).

(** What the loop keeps: per day, a positive total and a score between 0
    and the total, a day key that is the day of a counted entry, and
    totals and scores that add up to the counted entries. *)
Definition daily_ok (cutoff : Z) (seen : list LogEntry) (daily : gmap Z (Z * Z)) : Prop :=
  (forall k c t, daily !! k = Some (c, t) ->
     1 <= t /\ 0 <= c <= t /\
     exists e, In e seen /\ in_window cutoff e = true /\ day_of (log_date e) = k) /\
  Zsum (map (fun kv => kv.2.2) (map_to_list daily)) =
    Z.of_nat (length (List.filter (in_window cutoff) seen)) /\
  Zsum (map (fun kv => kv.2.1) (map_to_list daily)) =
    Z.of_nat (length (List.filter log_correct (List.filter (in_window cutoff) seen))).

Lemma progress_daily_ok (cutoff : Z) (log : list LogEntry) :
  daily_ok cutoff log (progress_daily cutoff log).
Proof.
  unfold progress_daily.
  assert (H : forall seen daily, daily_ok cutoff seen daily ->
    daily_ok cutoff (seen ++ log)
      (fold_left (fun daily entry =>
               if Z.leb cutoff (log_date entry) then
                 let day_key := day_of (log_date entry) in
                 let '(c, t) := match daily !! day_key with
                                | Some v => v
                                | None => (0, 0)
                                end in
                 <[day_key := (if log_correct entry then c + 1 else c, t + 1)]> daily
               else daily) log daily)).
  { induction log as [|e log IH]; intros seen daily Hok; simpl.
    - rewrite app_nil_r. exact Hok.
    - replace (seen ++ e :: log) with ((seen ++ [e]) ++ log)
        by (rewrite <- app_assoc; reflexivity).
      apply IH. destruct Hok as (Hrows & Htot & Hsc).
      unfold daily_ok. rewrite !List.filter_app, !length_app. simpl.
      replace (in_window cutoff e) with (Z.leb cutoff (log_date e)) by reflexivity.
      destruct (Z.leb_spec cutoff (log_date e)) as [Hw|Hw].
      + simpl. rewrite ?List.filter_app, ?length_app.
        destruct (daily !! day_of (log_date e)) as [[c0 t0]|] eqn:E.
        * destruct (Hrows _ _ _ E) as (Ht0 & Hc0 & _).
          split; [|split].
          -- intros k c t. rewrite lookup_insert. case_decide as Hk.
             ++ subst k. intros [= <- <-].
                split; [lia|]. split; [destruct (log_correct e); lia|].
                exists e. split; [apply in_app_iff; right; left; reflexivity|].
                split; [apply Z.leb_le; exact Hw | reflexivity].
             ++ intros Hl. destruct (Hrows _ _ _ Hl) as (H1 & H2 & e' & He' & Hw' & Hd).
                split; [exact H1|]. split; [exact H2|].
                exists e'. split; [apply in_app_iff; left; exact He' | auto].
          -- rewrite (Zsum_map_insert (fun v => v.2)), E, Htot. simpl. lia.
          -- rewrite (Zsum_map_insert (fun v => v.1)), E, Hsc. simpl.
             destruct (log_correct e); simpl; lia.
        * split; [|split].
          -- intros k c t. rewrite lookup_insert. case_decide as Hk.
             ++ subst k. intros [= <- <-].
                split; [lia|]. split; [destruct (log_correct e); lia|].
                exists e. split; [apply in_app_iff; right; left; reflexivity|].
                split; [apply Z.leb_le; exact Hw | reflexivity].
             ++ intros Hl. destruct (Hrows _ _ _ Hl) as (H1 & H2 & e' & He' & Hw' & Hd).
                split; [exact H1|]. split; [exact H2|].
                exists e'. split; [apply in_app_iff; left; exact He' | auto].
          -- rewrite (Zsum_map_insert (fun v => v.2)), E, Htot. simpl. lia.
          -- rewrite (Zsum_map_insert (fun v => v.1)), E, Hsc. simpl.
             destruct (log_correct e); simpl; lia.
      + simpl. rewrite ?app_nil_r, ?Nat.add_0_r. split; [|split; assumption].
        intros k c t Hl. destruct (Hrows _ _ _ Hl) as (H1 & H2 & e' & He' & Hw' & Hd).
        split; [exact H1|]. split; [exact H2|].
        exists e'. split; [apply in_app_iff; left; exact He' | auto]. }
  apply (H []). split; [|split; reflexivity].
  intros k c t Hl. rewrite lookup_empty in Hl. discriminate.
Qed.

Lemma fmap_fst_map {A B} (l : list (A * B)) : l.*1 = map fst l.
Proof. induction l as [|x l IH]; simpl; [reflexivity|]. rewrite <- IH. reflexivity. Qed.

Lemma StronglySorted_strict (l : list (Z * (Z * Z))) :
  StronglySorted day_le l -> NoDup (map fst l) ->
  StronglySorted (fun a b => a.1 < b.1) l.
Proof.
  induction l as [|a l IH]; intros Hs Hnd; [constructor|].
  inversion Hs as [|? ? Hs' Ha]; subst. inversion Hnd as [|? ? Hn Hnd']; subst.
  constructor; [exact (IH Hs' Hnd')|].
  apply List.Forall_forall. intros b Hb. rewrite List.Forall_forall in Ha.
  specialize (Ha b Hb). unfold day_le in Ha.
  destruct (Z.eq_dec a.1 b.1) as [Heq|]; [|lia].
  exfalso. apply Hn. rewrite Heq. apply list_elem_of_In, in_map, Hb.
Qed.

Lemma StronglySorted_map_impl {A B} (R : A -> A -> Prop) (R' : B -> B -> Prop)
    (f : A -> B) (l : list A) :
  (forall a b, In a l -> In b l -> R a b -> R' (f a) (f b)) ->
  StronglySorted R l -> StronglySorted R' (map f l).
Proof.
  induction l as [|a l IH]; intros Himp Hs; simpl; [constructor|].
  inversion Hs as [|? ? Hs' Ha]; subst. constructor.
  - apply IH; [|exact Hs']. intros x y Hx Hy. apply Himp; right; assumption.
  - apply List.Forall_forall. intros y Hy. apply in_map_iff in Hy.
    destruct Hy as (b & <- & Hb). apply Himp; [left; reflexivity | right; exact Hb|].
    rewrite List.Forall_forall in Ha. apply Ha, Hb.
Qed.

(** [get_progress_data(days)] lists each day at most once, in increasing
    order; each row is the day of an answer logged at or after the cutoff
    [now - days], has a total of at least 1 and a score between 0 and its
    total; and the totals add up to the number of logged answers since the
    cutoff, the scores to the number of correct ones among them. *)
Theorem progress_data_rows (round1 : Q -> Q) (now days : Z) (data : Data) :
  let rows := get_progress_data round1 now days data in
  let window := List.filter (in_window (now - days * seconds_per_day)) (answers_log data) in
  StronglySorted (fun r1 r2 => pr_date r1 < pr_date r2) rows /\
  (forall r, In r rows ->
     1 <= pr_total r /\ 0 <= pr_score r <= pr_total r /\
     exists e, In e window /\ day_of (log_date e) = pr_date r) /\
  Zsum (map pr_total rows) = Z.of_nat (length window) /\
  Zsum (map pr_score rows) = Z.of_nat (length (List.filter log_correct window)).
Proof.
  intros rows window. unfold rows, get_progress_data.
  set (cutoff := now - days * seconds_per_day) in *.
  set (daily := progress_daily cutoff (answers_log data)).
  destruct (progress_daily_ok cutoff (answers_log data)) as (Hrows & Htot & Hsc).
  fold daily in Hrows, Htot, Hsc.
  set (row := fun kv : Z * (Z * Z) => let '(day, (c, t)) := kv in
                mkProgressRow day c t
                  (if Z.ltb 0 t then round1 (inject_Z c / inject_Z t * 100)%Q else 0%Q)).
  change (map _ (merge_sort day_le (map_to_list daily))) with
         (map row (merge_sort day_le (map_to_list daily))).
  pose proof (merge_sort_Permutation day_le (map_to_list daily)) as Hperm.
  assert (Hin : forall kv, In kv (merge_sort day_le (map_to_list daily)) ->
                           daily !! kv.1 = Some kv.2).
  { intros [k v] Hkv. apply (Permutation_in _ Hperm) in Hkv.
    apply elem_of_map_to_list. apply list_elem_of_In. exact Hkv. }
  split; [|split; [|split]].
  - apply (StronglySorted_map_impl (fun a b : Z * (Z * Z) => a.1 < b.1)).
    + intros [k1 [c1 t1]] [k2 [c2 t2]] _ _ Hlt. exact Hlt.
    + apply StronglySorted_strict.
      * apply StronglySorted_merge_sort; [intros ? ? ? ? ?; unfold day_le in *; lia|].
        intros x y. unfold day_le. lia.
      * rewrite (Permutation_map fst Hperm), <- fmap_fst_map.
        apply NoDup_fst_map_to_list.
  - intros r Hr. apply in_map_iff in Hr. destruct Hr as ([k [c t]] & <- & Hkv).
    apply Hin in Hkv. simpl in Hkv. destruct (Hrows _ _ _ Hkv) as (H1 & H2 & e & He & Hw & Hd).
    simpl. split; [exact H1|]. split; [exact H2|].
    exists e. split; [|exact Hd]. unfold window. apply List.filter_In. auto.
  - rewrite map_map.
    rewrite (Zsum_perm _ _ (Permutation_map _ Hperm)). etransitivity; [|exact Htot].
    f_equal. apply map_ext. intros [k [c t]]. reflexivity.
  - rewrite map_map.
    rewrite (Zsum_perm _ _ (Permutation_map _ Hperm)). etransitivity; [|exact Hsc].
    f_equal. apply map_ext. intros [k [c t]]. reflexivity.
Qed.

(* ------------------------------------------------------------------ *)
(** ** [record_answer] and [check_achievements] are independent *)

(** The answer handler of the app calls [record_answer] and then
    [check_achievements]; the two touch disjoint parts of the document,
    so the other order gives the same document and reports the same new
    achievements. *)
Theorem record_answer_check_achievements_commute (now now' : Z)
    (f q c : string) (b b' : bool) (data : Data) :
  check_achievements now' b' (record_answer now f q c b data) =
    (record_answer now f q c b (fst (check_achievements now' b' data)),
     snd (check_achievements now' b' data)).
Proof.
  unfold check_achievements.
  change (stats (record_answer now f q c b data)) with (stats data).
  change (achievements (record_answer now f q c b data)) with (achievements data).
  match goal with |- context [fold_left ?g ?cs ?acc] =>
    destruct (fold_left g cs acc) as [achs news] end.
  reflexivity.
Qed.
